(** * gumble: the client session (gumble/client.go) and the channel tree
      (gumble/channel.go), as a shallow embedding.

    The Go code is sequentialised: every method becomes a function that
    threads a [World] (the client object, the heap of channel objects, the
    set of closed connections and a trace of the steps performed so far).
    Results that come from outside the package (the Opus encoder
    constructor, the TLS dial, the bytes the server sends) are inputs. *)

From Stdlib Require Import ZArith Lia List.
From Stdlib Require Import Strings.Byte.
From stdpp Require Import base option list strings gmap.

Open Scope string_scope.
Open Scope list_scope.
Open Scope Z_scope.

(** ** Data model *)

(** [type State int] with its three [iota] constants. *)
Inductive State : Type :=
| StateDisconnected
| StateConnected
| StateSynced.

Definition State_eqb (a b : State) : bool :=
  match a, b with
  | StateDisconnected, StateDisconnected => true
  | StateConnected, StateConnected => true
  | StateSynced, StateSynced => true
  | _, _ => false
  end.

(** [maximumPacketSize = 1024 * 1024 * 10]. *)
Definition maximumPacketSize : Z := 1024 * 1024 * 10.

(** Modelled from the spec: the constant [AudioSampleRate], declared
    elsewhere in the package; the spec fixes the sample rate at 48000
    (48 kHz). *)
Definition AudioSampleRate : Z := 48000.

(** Errors are compared by identity in Go.  [ErrState] is the package's own
    value ([errors.New]); the other two constructors carry whatever
    [gopus.NewEncoder] and [tls.DialWithDialer] returned, neither of which
    can be the package-private [ErrState] value. *)
Inductive error : Type :=
| ErrState
| ErrEncoder (msg : string)
| ErrDial (msg : string).

(** Pointers.  An address is a natural number; [None] is Go's [nil]. *)
Definition Conn : Type := nat.      (* identity of a *tls.Conn *)
Definition Chan : Type := nat.      (* identity of a chan bool *)
Definition Listener : Type := nat.  (* identity of an EventListener *)
Definition ChannelPtr : Type := option nat.
Definition UserPtr : Type := option nat.
Definition VoiceTargetPtr : Type := option nat.

(** gopus encoder objects: the constructor arguments and the VBR switch. *)
Inductive Application : Type := Voip | Audio | RestrictedLowdelay.

Record Encoder : Type := mkEncoder {
  enc_sampleRate : Z;
  enc_channels : Z;
  enc_application : Application;
  enc_vbr : bool
}.

Definition SetVbr (vbr : bool) (e : Encoder) : Encoder :=
  {| enc_sampleRate := enc_sampleRate e;
     enc_channels := enc_channels e;
     enc_application := enc_application e;
     enc_vbr := vbr |}.

(** Modelled from the spec: the collection types [Users], [Channels] and
    [ContextActions], declared elsewhere in the package.  They are nil-able
    ([None]) collections of pointers, distinct from the empty literal
    [Channels{}] ([Some []]); the list gives the order in which a [range]
    loop visits the values. *)
Definition Users : Type := option (list UserPtr).
Definition Channels : Type := option (list ChannelPtr).
Definition ContextActions : Type := option (list nat).

(** Modelled from the spec: [Config], declared elsewhere in the package;
    these are the fields client.go reads.  [Dialer] and [TlsConfig] are
    opaque library structs; a nil [Listener] is [None]. *)
Record Config : Type := mkConfig {
  Username : string;
  Password : string;
  Tokens : list string;
  Address : string;
  Dialer : Z;
  TlsConfig : Z;
  CfgListener : option Listener
}.

(** Modelled from the spec: [Version] and [setSemanticVersion], declared
    elsewhere in the package (release, OS, OS version and the semantic
    version, kept here as the triple it was set from). *)
Record Version : Type := mkVersion {
  version : Z * Z * Z;
  release : string;
  os : string;
  osVersion : string
}.

Definition setSemanticVersion (major minor patch : Z) (v : Version) : Version :=
  {| version := (major, minor, patch);
     release := release v; os := os v; osVersion := osVersion v |}.

Definition zeroVersion : Version :=
  {| version := (0, 0, 0); release := EmptyString; os := EmptyString; osVersion := EmptyString |}.

(** [type Client struct].  The two mutexes carry no data in a sequential
    model and are left out, as is the field [tls], which no method reads
    or writes. *)
Record Client : Type := mkClient {
  config : Config;
  state : State;
  self : UserPtr;
  server_version : Version;
  connection : option Conn;
  users : Users;
  channels : Channels;
  contextActions : ContextActions;
  audioEncoder : option Encoder;
  audioSequence : Z;
  audioTarget : VoiceTargetPtr;
  end_ : option Chan
}.

(** [type Channel struct].  The [client] back pointer always designates the
    one client of the world and is left implicit. *)
Record Channel : Type := mkChannel {
  id : Z;
  parent : ChannelPtr;
  children : Channels;
  name : string;
  description : string;
  descriptionHash : option (list byte);
  position : Z;
  temporary : bool
}.

(** Field updates [c.f = v]. *)
Definition set_state (v : State) (c : Client) : Client :=
  mkClient (config c) v (self c) (server_version c) (connection c) (users c)
    (channels c) (contextActions c) (audioEncoder c) (audioSequence c)
    (audioTarget c) (end_ c).
Definition set_self (v : UserPtr) (c : Client) : Client :=
  mkClient (config c) (state c) v (server_version c) (connection c) (users c)
    (channels c) (contextActions c) (audioEncoder c) (audioSequence c)
    (audioTarget c) (end_ c).
Definition set_connection (v : option Conn) (c : Client) : Client :=
  mkClient (config c) (state c) (self c) (server_version c) v (users c)
    (channels c) (contextActions c) (audioEncoder c) (audioSequence c)
    (audioTarget c) (end_ c).
Definition set_users (v : Users) (c : Client) : Client :=
  mkClient (config c) (state c) (self c) (server_version c) (connection c) v
    (channels c) (contextActions c) (audioEncoder c) (audioSequence c)
    (audioTarget c) (end_ c).
Definition set_channels (v : Channels) (c : Client) : Client :=
  mkClient (config c) (state c) (self c) (server_version c) (connection c)
    (users c) v (contextActions c) (audioEncoder c) (audioSequence c)
    (audioTarget c) (end_ c).
Definition set_contextActions (v : ContextActions) (c : Client) : Client :=
  mkClient (config c) (state c) (self c) (server_version c) (connection c)
    (users c) (channels c) v (audioEncoder c) (audioSequence c)
    (audioTarget c) (end_ c).
Definition set_audioEncoder (v : option Encoder) (c : Client) : Client :=
  mkClient (config c) (state c) (self c) (server_version c) (connection c)
    (users c) (channels c) (contextActions c) v (audioSequence c)
    (audioTarget c) (end_ c).
Definition set_audioSequence (v : Z) (c : Client) : Client :=
  mkClient (config c) (state c) (self c) (server_version c) (connection c)
    (users c) (channels c) (contextActions c) (audioEncoder c) v
    (audioTarget c) (end_ c).
Definition set_audioTarget (v : VoiceTargetPtr) (c : Client) : Client :=
  mkClient (config c) (state c) (self c) (server_version c) (connection c)
    (users c) (channels c) (contextActions c) (audioEncoder c)
    (audioSequence c) v (end_ c).
Definition set_end (v : option Chan) (c : Client) : Client :=
  mkClient (config c) (state c) (self c) (server_version c) (connection c)
    (users c) (channels c) (contextActions c) (audioEncoder c)
    (audioSequence c) (audioTarget c) v.

(** The composite literal [&Client{config: config, state: StateDisconnected}]:
    every field not named has its zero value. *)
Definition clientLiteral (cfg : Config) : Client :=
  {| config := cfg;
     state := StateDisconnected;
     self := None;
     server_version := zeroVersion;
     connection := None;
     users := None;
     channels := None;
     contextActions := None;
     audioEncoder := None;
     audioSequence := 0;
     audioTarget := None;
     end_ := None |}.

(** [func NewClient(config *Config) *Client]; [None] is the nil config,
    respectively the nil client. *)
Definition NewClient (cfg : option Config) : option Client :=
  match cfg with
  | None => None
  | Some cfg => Some (clientLiteral cfg)
  end.

(** ** Messages, events and the trace *)

(** The protocol messages (package MumbleProto) that client.go and
    channel.go build, with the fields they set.  Optional protobuf fields
    that the code leaves unset are [None]. *)
Record ChannelStateMsg : Type := mkChannelStateMsg {
  cs_ChannelId : option Z;
  cs_Parent : option Z;
  cs_Name : option string;
  cs_Description : option string;
  cs_Temporary : option bool
}.

Record AuthenticateMsg : Type := mkAuthenticateMsg {
  au_Username : string;
  au_Password : string;
  au_Opus : bool;
  au_Tokens : list string
}.

Inductive ProtoMessage : Type :=
| PVersion (v : Version)
| PAuthenticate (a : AuthenticateMsg)
| PPing (timestamp : Z)
| PUserList
| PBanList (query : bool)
| PChannelState (m : ChannelStateMsg)
| PChannelRemove (channelId : Z).

(** [type Message interface]; [protoMessage] is the implementation that
    client.go and channel.go use. *)
Inductive Message : Type :=
| protoMessage (p : ProtoMessage).

(** Modelled from the spec: [DisconnectType] and [DisconnectEvent], declared
    elsewhere in the package; a Disconnect event is tagged User, Kicked,
    Banned or Error. *)
Inductive DisconnectType : Type :=
| DisconnectError
| DisconnectKicked
| DisconnectBanned
| DisconnectUser.

(** [DisconnectEvent{Client: c, Type: t}]; the client is the one of the
    world. *)
Record DisconnectEvent : Type := mkDisconnectEvent {
  ev_Type : DisconnectType
}.

Inductive Field : Type :=
| FState | FSelf | FConnection | FUsers | FChannels | FContextActions
| FAudioEncoder | FAudioSequence | FAudioTarget | FEnd.

Inductive Routine : Type := ReadRoutine | PingRoutine.

(** One entry per step a method performs, in program order. *)
Inductive Action : Type :=
| ActNewEncoder (sampleRate channels : Z) (app : Application)
| ActSetVbr (vbr : bool)
| ActDial (dialer : Z) (network address : string) (tlsConfig : Z)
| ActAssign (f : Field)
| ActGo (r : Routine)
| ActWrite (k : Conn) (m : Message)
| ActSignalEnd (ch : option Chan)
| ActConnClose (k : Conn)
| ActOnDisconnect (l : Listener) (e : DisconnectEvent).

Record World : Type := mkWorld {
  client : Client;
  channelObjs : gmap nat Channel;
  closedConns : list Conn;
  trace : list Action
}.

(** ** A state monad over the world *)

Definition M (A : Type) : Type := World -> A * World.

#[global] Instance M_ret : MRet M := fun A (a : A) w => (a, w).

#[global] Instance M_bind : MBind M :=
  fun A B (k : A -> M B) (m : M A) w => let (a, w') := m w in k a w'.

Abbreviation ret := (mret (M := M)).

Definition getClient : M Client := fun w => (client w, w).

Definition act (a : Action) : M unit :=
  fun w => (tt, mkWorld (client w) (channelObjs w) (closedConns w) (trace w ++ [a])).

(** [c.f = v]: the update is applied and the assignment is recorded. *)
Definition assign (f : Field) (upd : Client -> Client) : M unit :=
  fun w => (tt, mkWorld (upd (client w)) (channelObjs w) (closedConns w)
                  (trace w ++ [ActAssign f])).

(** [conn.Close()]. *)
Definition connClose (k : Conn) : M unit :=
  fun w => (tt, mkWorld (client w) (channelObjs w) (k :: closedConns w)
                  (trace w ++ [ActConnClose k])).

Definition isClosed (k : Conn) (w : World) : bool :=
  existsb (Nat.eqb k) (closedConns w).

(** ** Send *)

(** Modelled from the spec: [Message.writeTo], defined elsewhere in the
    package.  If the connection is nil, it fails with InvalidState;
    otherwise it encodes and writes.  The frame written is recorded by the
    message it encodes; the first component of the result is the byte
    count, which [Send] discards. *)
Definition writeTo (m : Message) (conn : option Conn) : M (Z * option error) :=
  match conn with
  | None => ret (0, Some ErrState)
  | Some k => act (ActWrite k m);; ret (0, None)
  end.

(** [func (c *Client) Send(message Message) error]. *)
Definition Send (message : Message) : M (option error) :=
  c ← getClient;
  r ← writeTo message (connection c);
  match snd r with
  | Some err => ret (Some err)
  | None => ret None
  end.

(** ** close, Disconnect, SetVoiceTarget *)

(** [func (c *Client) close(event *DisconnectEvent) error].  The send on
    [c.end] is a rendezvous with the keep-alive goroutine; here it is the
    step [ActSignalEnd]. *)
Definition close (event : DisconnectEvent) : M (option error) :=
  c ← getClient;
  match connection c with
  | None => ret (Some ErrState)
  | Some k =>
      act (ActSignalEnd (end_ c));;
      connClose k;;
      assign FConnection (set_connection None);;
      assign FState (set_state StateDisconnected);;
      assign FUsers (set_users None);;
      assign FChannels (set_channels None);;
      assign FContextActions (set_contextActions None);;
      assign FSelf (set_self None);;
      assign FAudioEncoder (set_audioEncoder None);;
      c' ← getClient;
      match CfgListener (config c') with
      | Some listener => act (ActOnDisconnect listener event)
      | None => ret tt
      end;;
      ret None
  end.

(** [func (c *Client) Disconnect() error]. *)
Definition Disconnect : M (option error) :=
  close {| ev_Type := DisconnectUser |}.

(** [func (c *Client) SetVoiceTarget(target *VoiceTarget)]. *)
Definition SetVoiceTarget (target : VoiceTargetPtr) : M unit :=
  assign FAudioTarget (set_audioTarget target).

(** ** Connect *)

(** What the outside world answers during one call of [Connect]. *)
Record Env : Type := mkEnv {
  newEncoderError : option string;  (* [None]: gopus.NewEncoder succeeds *)
  dialResult : Conn + string;       (* tls.DialWithDialer *)
  newChan : Chan;                   (* make(chan bool) *)
  GOOS : string;
  GOARCH : string
}.

(** [gopus.NewEncoder(sampleRate, channels, application)].  A fresh encoder
    has libopus' default, VBR on. *)
Definition gopus_NewEncoder (env : Env) (sampleRate chans : Z) (app : Application)
  : M (Encoder + string) :=
  act (ActNewEncoder sampleRate chans app);;
  ret (match newEncoderError env with
       | None => inl (mkEncoder sampleRate chans app true)
       | Some err => inr err
       end).

(** [tls.DialWithDialer(dialer, network, addr, config)]. *)
Definition tls_DialWithDialer (env : Env) (dialer : Z) (network addr : string)
    (tlsConfig : Z) : M (Conn + string) :=
  act (ActDial dialer network addr tlsConfig);;
  ret (dialResult env).

(** [func (c *Client) Connect() error]. *)
Definition Connect (env : Env) : M (option error) :=
  c ← getClient;
  if negb (State_eqb (state c) StateDisconnected) then ret (Some ErrState) else
  r ← gopus_NewEncoder env AudioSampleRate 1 Voip;
  match r with
  | inr err => ret (Some (ErrEncoder err))
  | inl encoder =>
      act (ActSetVbr false);;
      assign FAudioEncoder (set_audioEncoder (Some (SetVbr false encoder)));;
      assign FAudioSequence (set_audioSequence 0);;
      assign FAudioTarget (set_audioTarget None);;
      d ← tls_DialWithDialer env (Dialer (config c)) "tcp" (Address (config c))
            (TlsConfig (config c));
      match d with
      | inr err =>
          assign FAudioEncoder (set_audioEncoder None);;
          ret (Some (ErrDial err))
      | inl conn =>
          assign FConnection (set_connection (Some conn));;
          assign FUsers (set_users (Some []));;
          assign FChannels (set_channels (Some []));;
          assign FContextActions (set_contextActions (Some []));;
          assign FState (set_state StateConnected);;
          (* Channels and goroutines *)
          assign FEnd (set_end (Some (newChan env)));;
          act (ActGo ReadRoutine);;
          act (ActGo PingRoutine);;
          (* Initial packets *)
          let version0 :=
            {| version := (0, 0, 0); release := "gumble";
               os := GOOS env; osVersion := GOARCH env |} in
          let version1 := setSemanticVersion 1 2 4 version0 in
          let versionPacket := PVersion version1 in
          let authenticationPacket :=
            PAuthenticate {| au_Username := Username (config c);
                             au_Password := Password (config c);
                             au_Opus := true;
                             au_Tokens := Tokens (config c) |} in
          Send (protoMessage versionPacket);;
          Send (protoMessage authenticationPacket);;
          ret None
      end
  end.

(** ** Channels *)

(** A call either returns or panics (nil dereference, slice bounds). *)
Inductive outcome (A : Type) : Type :=
| Returned (a : A)
| Panicked.
Arguments Returned {A} a.
Arguments Panicked {A}.

(** [*p] for a channel pointer; [None] when [p] is nil or not allocated. *)
Definition deref (h : gmap nat Channel) (p : ChannelPtr) : option Channel :=
  match p with
  | None => None
  | Some a => h !! a
  end.

Definition getChannel (p : ChannelPtr) : M (option Channel) :=
  fun w => (deref (channelObjs w) p, w).

(** [for _, x := range xs { body }] where the body either executes
    [return r] ([Some r]) or falls through to the next element ([None]).
    Ranging over nil visits nothing. *)
Fixpoint rangeLoop {A R : Type} (body : A -> outcome (option R)) (xs : list A)
  : outcome (option R) :=
  match xs with
  | [] => Returned None
  | x :: xs' =>
      match body x with
      | Panicked => Panicked
      | Returned (Some r) => Returned (Some r)
      | Returned None => rangeLoop body xs'
      end
  end.

(** [func (c *Channel) Find(names ...string) *Channel]. *)
Fixpoint Channel_Find (h : gmap nat Channel) (names : list string) (c : ChannelPtr)
  : outcome ChannelPtr :=
  match names with
  | [] => Returned c
  | first :: rest =>
      match deref h c with
      | None => Panicked
      | Some ch =>
          match rangeLoop
                  (fun child =>
                     match deref h child with
                     | None => Panicked
                     | Some chd =>
                         if String.eqb (name chd) first
                         then match Channel_Find h rest child with
                              | Returned r => Returned (Some r)
                              | Panicked => Panicked
                              end
                         else Returned None
                     end)
                  (default [] (children ch)) with
          | Panicked => Panicked
          | Returned (Some r) => Returned r
          | Returned None => Returned None
          end
      end
  end.

(** [func (c *Channel) Add(name string, temporary bool)]. *)
Definition Channel_Add (c : ChannelPtr) (name : string) (temporary : bool)
  : M (outcome unit) :=
  o ← getChannel c;
  match o with
  | None => ret Panicked
  | Some ch =>
      let packet :=
        PChannelState {| cs_ChannelId := None; cs_Parent := Some (id ch);
                         cs_Name := Some name; cs_Description := None;
                         cs_Temporary := Some temporary |} in
      Send (protoMessage packet);;
      ret (Returned tt)
  end.

(** [func (c *Channel) Remove()]. *)
Definition Channel_Remove (c : ChannelPtr) : M (outcome unit) :=
  o ← getChannel c;
  match o with
  | None => ret Panicked
  | Some ch =>
      let packet := PChannelRemove (id ch) in
      Send (protoMessage packet);;
      ret (Returned tt)
  end.

(** [func (c *Channel) SetName(name string)]. *)
Definition Channel_SetName (c : ChannelPtr) (name : string) : M (outcome unit) :=
  o ← getChannel c;
  match o with
  | None => ret Panicked
  | Some ch =>
      let packet :=
        PChannelState {| cs_ChannelId := Some (id ch); cs_Parent := None;
                         cs_Name := Some name; cs_Description := None;
                         cs_Temporary := None |} in
      Send (protoMessage packet);;
      ret (Returned tt)
  end.

(** [func (c *Channel) SetDescription(description string)]. *)
Definition Channel_SetDescription (c : ChannelPtr) (description : string)
  : M (outcome unit) :=
  o ← getChannel c;
  match o with
  | None => ret Panicked
  | Some ch =>
      let packet :=
        PChannelState {| cs_ChannelId := Some (id ch); cs_Parent := None;
                         cs_Name := None; cs_Description := Some description;
                         cs_Temporary := None |} in
      Send (protoMessage packet);;
      ret (Returned tt)
  end.

(** ** The read goroutine *)

(** [binary.BigEndian]: the unsigned integer a byte string denotes. *)
Definition be_uint (bs : list byte) : Z :=
  fold_left (fun acc b => acc * 256 + Z.of_N (Byte.to_N b)) bs 0.

(** Go's [int] on a 64-bit target; [to_int] is the conversion [int(x)],
    two's complement wrap-around written out. *)
Definition intSize : Z := 64.

Definition to_int (x : Z) : Z :=
  let m := x mod 2 ^ intSize in
  if m <? 2 ^ (intSize - 1) then m else m - 2 ^ intSize.

(** [io.ReadFull(conn, buf)] with [len(buf) = n], which is also what
    [binary.Read] does for a fixed-size value: [n] bytes of the stream, or
    an error.  [input] is what reads on the connection deliver before they
    begin to fail (EOF, a fault, a missed read deadline, or the connection
    having been closed); a short read consumes what was there.  A local
    [Close] does not take back plaintext that is already buffered, so
    whether the connection has been closed is not consulted: it is [input]
    alone that says where reads begin to fail, and the world [w] plays no
    part. *)
Definition connRead (k : Conn) (n : Z) (input : list byte) (w : World)
  : option (list byte) * list byte :=
  if Z.of_nat (length input) <? n then (None, [])
  else (Some (take (Z.to_nat n) input), drop (Z.to_nat n) input).

Inductive LoopExit : Type :=
| ExitReturn
| ExitPanic.

(** A packet handler: a function of the client and the payload bytes. *)
Definition Handler : Type := list byte -> M unit.

Section ReadRoutine.

(** The dispatch table [handlers], declared elsewhere in the package. *)
Variable handlers : gmap Z Handler.

(** [if handle, ok := handlers[pType]; ok { handle(c, data[:pLengthInt]) }] *)
Definition dispatch (pType : Z) (payload : list byte) (w : World) : World :=
  match handlers !! pType with
  | Some handle => snd ((handle : Handler) payload w)
  | None => w
  end.

(** The [for] loop of [readRoutine].  [cap] is [cap(data)]; the result is
    how the loop was left, the bytes not read, and the world.  [None]
    means the fuel ran out (see [readLoop_fuel]). *)
Fixpoint readLoop (fuel : nat) (conn : Conn) (cap : Z) (input : list byte)
    (w : World) : option (LoopExit * list byte * World) :=
  match fuel with
  | O => None
  | S fuel' =>
      match connRead conn 2 input w with
      | (None, in1) => Some (ExitReturn, in1, w)
      | (Some tb, in1) =>
          let pType := be_uint tb in
          match connRead conn 4 in1 w with
          | (None, in2) => Some (ExitReturn, in2, w)
          | (Some lb, in2) =>
              let pLength := be_uint lb in
              let pLengthInt := to_int pLength in
              if pLengthInt >? maximumPacketSize then Some (ExitReturn, in2, w)
              else
                let cap' := if pLengthInt >? cap then pLengthInt else cap in
                (* data[:pLengthInt] *)
                if pLengthInt <? 0 then Some (ExitPanic, in2, w)
                else
                  match connRead conn pLengthInt in2 w with
                  | (None, in3) => Some (ExitReturn, in3, w)
                  | (Some payload, in3) =>
                      readLoop fuel' conn cap' in3 (dispatch pType payload w)
                  end
          end
      end
  end.

(** The loop from a fresh buffer [make([]byte, 1024)]; every turn reads at
    least the six header bytes, so [S (length input)] turns suffice. *)
Definition runLoop (conn : Conn) (input : list byte) (w : World)
  : LoopExit * list byte * World :=
  default (ExitReturn, input, w) (readLoop (S (length input)) conn 1024 input w).

(** [defer c.close(&DisconnectEvent{Client: c, Type: DisconnectError})]:
    runs when the loop returns and also when it panics. *)
Definition deferredClose (r : LoopExit * list byte * World)
  : (LoopExit * list byte) * World :=
  (fst r, snd (close {| ev_Type := DisconnectError |} (snd r))).

(** [func (c *Client) readRoutine()].  With a nil connection the first
    [conn.SetReadDeadline] dereferences nil. *)
Definition readRoutine (input : list byte) : M (LoopExit * list byte) :=
  fun w =>
    match connection (client w) with
    | None => deferredClose (ExitPanic, input, w)
    | Some conn => deferredClose (runLoop conn input w)
    end.

End ReadRoutine.

(** ** Observations on traces *)

(** The Disconnect events handed to a listener, oldest first. *)
Definition disconnectEvents (t : list Action) : list (Listener * DisconnectEvent) :=
  omap (fun a => match a with ActOnDisconnect l e => Some (l, e) | _ => None end) t.

(** The frames written to a connection, oldest first. *)
Definition written (t : list Action) : list (Conn * Message) :=
  omap (fun a => match a with ActWrite k m => Some (k, m) | _ => None end) t.

(** What [close] hands to the configured listener, if there is one. *)
Definition notified (cfg : Config) (event : DisconnectEvent)
  : list (Listener * DisconnectEvent) :=
  match CfgListener cfg with
  | Some listener => [(listener, event)]
  | None => []
  end.

(** The client as [close] leaves it. *)
Definition closedClient (c : Client) : Client :=
  {| config := config c;
     state := StateDisconnected;
     self := None;
     server_version := server_version c;
     connection := None;
     users := None;
     channels := None;
     contextActions := None;
     audioEncoder := None;
     audioSequence := audioSequence c;
     audioTarget := audioTarget c;
     end_ := end_ c |}.

(** A disconnected client holds neither a connection nor an encoder; this
    is how [NewClient], [close] and a failed [Connect] leave the client. *)
Definition disconnectedClean (c : Client) : Prop :=
  state c = StateDisconnected -> connection c = None /\ audioEncoder c = None.

(** Does pointer [p] lead to a channel called [first]? *)
Definition named (h : gmap nat Channel) (first : string) (p : ChannelPtr) : bool :=
  match deref h p with
  | Some chd => String.eqb (name chd) first
  | None => false
  end.

(** The world after a request method has run: the frame for [m] has been
    written if there is a connection, and nothing else has changed. *)
Definition requested (m : ProtoMessage) (w : World) : World :=
  mkWorld (client w) (channelObjs w) (closedConns w)
    (trace w ++
       match connection (client w) with
       | Some k => [ActWrite k (protoMessage m)]
       | None => []
       end).

(** Recognisers for the steps of [Connect]. *)
Definition isDial (a : Action) : bool :=
  match a with ActDial _ _ _ _ => true | _ => false end.
Definition isNewEncoder (a : Action) : bool :=
  match a with ActNewEncoder _ _ _ => true | _ => false end.
Definition isAssign (f : Field) (a : Action) : bool :=
  match a, f with
  | ActAssign FState, FState | ActAssign FSelf, FSelf
  | ActAssign FConnection, FConnection | ActAssign FUsers, FUsers
  | ActAssign FChannels, FChannels
  | ActAssign FContextActions, FContextActions
  | ActAssign FAudioEncoder, FAudioEncoder
  | ActAssign FAudioSequence, FAudioSequence
  | ActAssign FAudioTarget, FAudioTarget | ActAssign FEnd, FEnd => true
  | _, _ => false
  end.
Definition isGo (r : Routine) (a : Action) : bool :=
  match a, r with
  | ActGo ReadRoutine, ReadRoutine | ActGo PingRoutine, PingRoutine => true
  | _, _ => false
  end.
Definition isSendVersion (a : Action) : bool :=
  match a with ActWrite _ (protoMessage (PVersion _)) => true | _ => false end.
Definition isSendAuthenticate (a : Action) : bool :=
  match a with ActWrite _ (protoMessage (PAuthenticate _)) => true | _ => false end.

(** Position of the first step a recogniser accepts. *)
Fixpoint indexOf (p : Action -> bool) (t : list Action) : option nat :=
  match t with
  | [] => None
  | a :: t' => if p a then Some O else option_map S (indexOf p t')
  end.

Fixpoint increasing (l : list (option nat)) : bool :=
  match l with
  | [] => true
  | None :: _ => false
  | Some i :: l' =>
      match l' with
      | [] => true
      | None :: _ => false
      | Some j :: _ => (i <? j)%nat && increasing l'
      end
  end.

(** All the steps occur in [t], in the order listed. *)
Definition inOrder (ps : list (Action -> bool)) (t : list Action) : bool :=
  increasing (map (fun p => indexOf p t) ps).

(** Dial first, encoder second. *)
Definition dialFirstOrder : list (Action -> bool) :=
  [ isDial; isNewEncoder; isAssign FAudioSequence;
    isAssign FUsers; isAssign FChannels; isAssign FContextActions;
    isAssign FState; isGo ReadRoutine; isGo PingRoutine;
    isSendVersion; isSendAuthenticate ].

(** Encoder first, dial second. *)
Definition encoderFirstOrder : list (Action -> bool) :=
  [ isNewEncoder; isAssign FAudioSequence; isDial;
    isAssign FUsers; isAssign FChannels; isAssign FContextActions;
    isAssign FState; isGo ReadRoutine; isGo PingRoutine;
    isSendVersion; isSendAuthenticate ].

(** The steps of a successful [Connect], as the code performs them. *)
Definition connectSteps (env : Env) (cfg : Config) (conn : Conn) : list Action :=
  [ ActNewEncoder AudioSampleRate 1 Voip;
    ActSetVbr false;
    ActAssign FAudioEncoder;
    ActAssign FAudioSequence;
    ActAssign FAudioTarget;
    ActDial (Dialer cfg) "tcp" (Address cfg) (TlsConfig cfg);
    ActAssign FConnection;
    ActAssign FUsers;
    ActAssign FChannels;
    ActAssign FContextActions;
    ActAssign FState;
    ActAssign FEnd;
    ActGo ReadRoutine;
    ActGo PingRoutine;
    ActWrite conn
      (protoMessage
         (PVersion {| version := (1, 2, 4); release := "gumble";
                      os := GOOS env; osVersion := GOARCH env |}));
    ActWrite conn
      (protoMessage
         (PAuthenticate {| au_Username := Username cfg;
                           au_Password := Password cfg;
                           au_Opus := true;
                           au_Tokens := Tokens cfg |})) ].

(** The client after a successful [Connect]. *)
Definition connectedClient (env : Env) (c : Client) (conn : Conn) : Client :=
  {| config := config c;
     state := StateConnected;
     self := self c;
     server_version := server_version c;
     connection := Some conn;
     users := Some [];
     channels := Some [];
     contextActions := Some [];
     audioEncoder := Some (mkEncoder AudioSampleRate 1 Voip false);
     audioSequence := 0;
     audioTarget := None;
     end_ := Some (newChan env) |}.

(** ** Sample inputs *)

Definition sampleConfig (l : option Listener) : Config :=
  {| Username := "alice"; Password := "secret"; Tokens := ["ops"];
     Address := "mumble.example:64738"; Dialer := 0; TlsConfig := 0;
     CfgListener := l |}.

Definition sampleEnv : Env :=
  {| newEncoderError := None; dialResult := inl 7%nat; newChan := 1%nat;
     GOOS := "linux"; GOARCH := "amd64" |}.

Definition sampleEnvNoCodec : Env :=
  {| newEncoderError := Some "opus: internal error"; dialResult := inl 7%nat;
     newChan := 1%nat; GOOS := "linux"; GOARCH := "amd64" |}.

Definition sampleEnvNoRoute : Env :=
  {| newEncoderError := None; dialResult := inr "dial tcp: connection refused";
     newChan := 1%nat; GOOS := "linux"; GOARCH := "amd64" |}.

Definition sampleChannels : gmap nat Channel :=
  <[0%nat := mkChannel 0 None (Some [Some 1%nat; Some 2%nat]) "Root" EmptyString None 0 false]>
  (<[1%nat := mkChannel 1 (Some 0%nat) (Some [Some 3%nat]) "Lobby" EmptyString None 0 false]>
  (<[2%nat := mkChannel 2 (Some 0%nat) (Some []) "Games" EmptyString None 1 false]>
  (<[3%nat := mkChannel 3 (Some 1%nat) None "Quiet" EmptyString None 0 true]> ∅))).

(** A world just after [NewClient]. *)
Definition freshWorld (l : option Listener) : World :=
  mkWorld (clientLiteral (sampleConfig l)) sampleChannels [] [].

(** The same world after a successful [Connect]. *)
Definition liveWorld (l : option Listener) : World :=
  snd (Connect sampleEnv (freshWorld l)).

(** type 5, length 0x00B00000 = 11 MiB, then two stray bytes. *)
Definition oversizeInput : list byte :=
  [x00; x05; x00; xb0; x00; x00; x01; x02].

(** type 0x0063 (not in the table below), length 2, payload, then the
    start of another header. *)
Definition unknownInput : list byte :=
  [x00; x63; x00; x00; x00; x02; xaa; xbb; x00].

(** A table with one handler, for type 5, which marks the client synced. *)
Definition sampleHandlers : gmap Z Handler :=
  <[5 := (fun _ => assign FState (set_state StateSynced))]> ∅.

(** ** The rest of client.go *)

(** [type Request int] and its [1 << iota] constants. *)
Definition RequestDescription : Z := Z.shiftl 1 0.
Definition RequestComment : Z := Z.shiftl 1 1.
Definition RequestTexture : Z := Z.shiftl 1 2.
Definition RequestStats : Z := Z.shiftl 1 3.
Definition RequestUserList : Z := Z.shiftl 1 4.
Definition RequestAcl : Z := Z.shiftl 1 5.
Definition RequestBanList : Z := Z.shiftl 1 6.

(** [func (c *Client) Request(request Request)]. *)
Definition Request (request : Z) : M unit :=
  (if negb (Z.land request RequestUserList =? 0)
   then Send (protoMessage PUserList);; ret tt
   else ret tt);;
  (if negb (Z.land request RequestBanList =? 0)
   then Send (protoMessage (PBanList true));; ret tt
   else ret tt).

(** [func (c *Client) Conn() net.Conn]. *)
Definition Client_Conn (c : Client) : option Conn :=
  if State_eqb (state c) StateDisconnected then None else connection c.

(** [func (c *Client) State() State] and the other plain getters. *)
Definition Client_State (c : Client) : State := state c.
Definition Client_Self (c : Client) : UserPtr := self c.
Definition Client_Users (c : Client) : Users := users c.
Definition Client_Channels (c : Client) : Channels := channels c.
Definition Client_ContextActions (c : Client) : ContextActions := contextActions c.
Definition Client_AudioEncoder (c : Client) : option Encoder := audioEncoder c.

(** ** Sequences of calls *)

(** One call on the client or on one of its channels, made by the host or
    by a goroutine of the package.  [OpClose] is [close] with an event of
    the given type: [Disconnect] is [OpClose DisconnectUser], the deferred
    call of the read goroutine is [OpClose DisconnectError]. *)
Inductive Op : Type :=
| OpConnect (env : Env)
| OpClose (t : DisconnectType)
| OpSend (m : Message)
| OpRequest (request : Z)
| OpSetVoiceTarget (target : VoiceTargetPtr)
| OpAdd (c : ChannelPtr) (name : string) (temporary : bool)
| OpRemove (c : ChannelPtr)
| OpSetName (c : ChannelPtr) (name : string)
| OpSetDescription (c : ChannelPtr) (description : string).

Definition step (w : World) (o : Op) : World :=
  match o with
  | OpConnect env => snd (Connect env w)
  | OpClose t => snd (close {| ev_Type := t |} w)
  | OpSend m => snd (Send m w)
  | OpRequest r => snd (Request r w)
  | OpSetVoiceTarget t => snd (SetVoiceTarget t w)
  | OpAdd c n t => snd (Channel_Add c n t w)
  | OpRemove c => snd (Channel_Remove c w)
  | OpSetName c n => snd (Channel_SetName c n w)
  | OpSetDescription c d => snd (Channel_SetDescription c d w)
  end.

Definition runOps (ops : list Op) (w : World) : World := fold_left step ops w.

(** The world right after [NewClient(cfg)], with channel objects [h]. *)
Definition newWorld (cfg : Config) (h : gmap nat Channel) : World :=
  mkWorld (clientLiteral cfg) h [] [].

(** The two shapes a client has between calls when no handler runs. *)
Definition atRest (c : Client) : Prop :=
  state c = StateDisconnected /\ connection c = None /\ audioEncoder c = None /\
  users c = None /\ channels c = None /\ contextActions c = None.

Definition inSession (c : Client) : Prop :=
  state c = StateConnected /\ (exists k, connection c = Some k) /\
  audioEncoder c = Some (mkEncoder AudioSampleRate 1 Voip false) /\
  users c = Some [] /\ channels c = Some [] /\ contextActions c = Some [] /\
  (exists ch, end_ c = Some ch).

(** Counting in a trace. *)
Definition countActs (p : Action -> bool) (t : list Action) : nat :=
  length (List.filter p t).

(** Steps that neither start nor end a session nor notify the listener. *)
Definition benign (a : Action) : bool :=
  match a with
  | ActWrite _ _ | ActAssign _ => true
  | _ => false
  end.

Definition isConnClose (a : Action) : bool :=
  match a with ActConnClose _ => true | _ => false end.

Definition liveSessions (c : Client) : nat :=
  match connection c with Some _ => 1%nat | None => 0%nat end.

(** ** Paths in the channel tree *)

(** [descends h c names k]: starting at [c] and following, name by name, a
    child with that name leads to [k]. *)
Inductive descends (h : gmap nat Channel) : ChannelPtr -> list string -> ChannelPtr -> Prop :=
| descends_nil (c : ChannelPtr) : descends h c [] c
| descends_cons (c child k : ChannelPtr) (ch chd : Channel)
    (first : string) (rest : list string) :
    deref h c = Some ch ->
    child ∈ default [] (children ch) ->
    deref h child = Some chd ->
    name chd = first ->
    descends h child rest k ->
    descends h c (first :: rest) k.

(** Every child pointer stored in a channel object is live. *)
Definition childrenLive (h : gmap nat Channel) : Prop :=
  forall (a : nat) (ch : Channel),
    h !! a = Some ch ->
    Forall (fun p => is_Some (deref h p)) (default [] (children ch)).

(** No channel has two different children with the same name. *)
Definition siblingsDistinct (h : gmap nat Channel) : Prop :=
  forall (a : nat) (ch : Channel) (p q : ChannelPtr) (cp cq : Channel),
    h !! a = Some ch ->
    p ∈ default [] (children ch) -> q ∈ default [] (children ch) ->
    deref h p = Some cp -> deref h q = Some cq ->
    name cp = name cq -> p = q.

(** ** Streams of packets *)

(** A packet as it arrives: the two type bytes, the four length bytes and
    the payload. *)
Record Packet : Type := mkPacket {
  pk_type : list byte;
  pk_length : list byte;
  pk_payload : list byte
}.

Definition packetBytes (p : Packet) : list byte :=
  pk_type p ++ pk_length p ++ pk_payload p.

(** The header has its six bytes, the length field counts the payload and
    does not exceed [maximumPacketSize]. *)
Definition wellFramed (p : Packet) : Prop :=
  length (pk_type p) = 2%nat /\ length (pk_length p) = 4%nat /\
  Z.of_nat (length (pk_payload p)) = be_uint (pk_length p) /\
  be_uint (pk_length p) <= maximumPacketSize.

(** The handlers of the packets' types, applied in order. *)
Definition dispatchAll (handlers : gmap Z Handler) (ps : list Packet) (w : World)
  : World :=
  fold_left (fun w' p => dispatch handlers (be_uint (pk_type p)) (pk_payload p) w')
    ps w.

(** A table whose handler for type 8 closes the client as kicked. *)
Definition kickHandlers : gmap Z Handler :=
  <[8 := (fun _ => close {| ev_Type := DisconnectKicked |};; ret tt)]> ∅.

(** ** gumbleopenal: the audio stream (gumbleopenal/stream.go) *)

Module gumbleopenal.

(** [ErrState] and [ErrMic] of this package. *)
Inductive error : Type :=
| ErrState
| ErrMic.

(** Handles of OpenAL objects and of the audio link. *)
Definition CaptureDevice : Type := nat.
Definition Device : Type := nat.
Definition Context : Type := nat.
Definition Detacher : Type := nat.

(** [type Stream struct].  The [client] pointer and [micVolume] (a float32)
    play no part in the methods below and are left out. *)
Record Stream : Type := mkStream {
  link : Detacher;
  deviceSource : option CaptureDevice;
  sourceFrameSize : Z;
  sourceStop : option Chan;
  deviceSink : option Device;
  contextSink : option Context
}.

(** Calls into OpenAL, the audio link and the runtime, in program order. *)
Inductive Call : Type :=
| CaptureStart (d : CaptureDevice)
| CaptureStop (d : CaptureDevice)
| CaptureCloseDevice (d : CaptureDevice)
| GoSourceRoutine (inputDevice : string)
| CloseChan (ch : Chan)
| Detach (l : Detacher)
| ContextDestroy (c : option Context)
| CloseDevice (d : Device).

Definition set_sourceStop (v : option Chan) (s : Stream) : Stream :=
  mkStream (link s) (deviceSource s) (sourceFrameSize s) v (deviceSink s)
    (contextSink s).
Definition set_deviceSource (v : option CaptureDevice) (s : Stream) : Stream :=
  mkStream (link s) v (sourceFrameSize s) (sourceStop s) (deviceSink s)
    (contextSink s).
Definition set_sinks (d : option Device) (c : option Context) (s : Stream) : Stream :=
  mkStream (link s) (deviceSource s) (sourceFrameSize s) (sourceStop s) d c.

(** [func (s *Stream) StartSource(inputDevice *string) error]; [fresh] is
    the channel [make(chan bool)] returns.  The result is the error, the
    stream and the calls made. *)
Definition StartSource (fresh : Chan) (inputDevice : string) (s : Stream)
  : option error * Stream * list Call :=
  match sourceStop s with
  | Some _ => (Some ErrState, s, [])
  | None =>
      match deviceSource s with
      | None => (Some ErrMic, s, [])
      | Some d =>
          (None, set_sourceStop (Some fresh) s,
           [CaptureStart d; GoSourceRoutine inputDevice])
      end
  end.

(** [func (s *Stream) StopSource() error]. *)
Definition StopSource (s : Stream) : option error * Stream * list Call :=
  match deviceSource s with
  | None => (Some ErrMic, s, [])
  | Some d =>
      match sourceStop s with
      | None => (Some ErrState, s, [CaptureStop d])
      | Some ch => (None, set_sourceStop None s, [CaptureStop d; CloseChan ch])
      end
  end.

(** [func (s *Stream) Destroy()]. *)
Definition Destroy (s : Stream) : Stream * list Call :=
  let calls0 := [Detach (link s)] in
  let '(s1, calls1) :=
    match deviceSource s with
    | Some d =>
        let '(_, s', cs) := StopSource s in
        (set_deviceSource None s', calls0 ++ cs ++ [CaptureCloseDevice d])
    | None => (s, calls0)
    end in
  match deviceSink s1 with
  | Some d =>
      (set_sinks None None s1,
       calls1 ++ [ContextDestroy (contextSink s1); CloseDevice d])
  | None => (s1, calls1)
  end.

(** Integer conversions: [uint16(v)], [int16(v)], [byte(v)]. *)
Definition to_uint16 (v : Z) : Z := v mod 2 ^ 16.

Definition to_int16 (v : Z) : Z :=
  let m := v mod 2 ^ 16 in
  if m <? 2 ^ 15 then m else m - 2 ^ 16.

Definition to_byte (v : Z) : byte :=
  default x00 (Byte.of_N (Z.to_N (v mod 256))).

(** [binary.LittleEndian.Uint16(b)]; [None] is the panic on a slice shorter
    than two bytes. *)
Definition Uint16 (b : list byte) : option Z :=
  match b with
  | b0 :: b1 :: _ => Some (Z.lor (Z.of_N (Byte.to_N b0))
                              (Z.shiftl (Z.of_N (Byte.to_N b1)) 8))
  | _ => None
  end.

(** [binary.LittleEndian.PutUint16(raw[off:], v)]: panics unless bytes
    [off] and [off+1] exist. *)
Definition PutUint16 (raw : list byte) (off : nat) (v : Z) : outcome (list byte) :=
  if (off + 1 <? length raw)%nat
  then Returned (<[S off := to_byte (Z.shiftr v 8)]> (<[off := to_byte v]> raw))
  else Panicked.

(** The ticker case of [sourceRoutine]: a capture of the wrong length is
    skipped ([None]); otherwise sample [i] is
    [int16(Uint16(buff[i*2 : (i+1)*2]))]. *)
Definition frameOfCapture (frameSize : Z) (buff : list byte) : option (list Z) :=
  if negb (Z.of_nat (length buff) =? frameSize * 2) then None
  else
    Some (map (fun i : nat =>
                 to_int16 (default 0 (Uint16 (take 2 (drop (i * 2) buff)))))
            (seq 0 (Z.to_nat frameSize))).

(** [for i, value := range packet.AudioBuffer { PutUint16(raw[i*2:], uint16(value)) }]. *)
Fixpoint fillRaw (raw : list byte) (i : nat) (audioBuffer : list Z)
  : outcome (list byte) :=
  match audioBuffer with
  | [] => Returned raw
  | value :: audioBuffer' =>
      match PutUint16 raw (i * 2) (to_uint16 value) with
      | Panicked => Panicked
      | Returned raw' => fillRaw raw' (S i) audioBuffer'
      end
  end.

(** The conversion part of one turn of the loop in [OnAudioStream]: the
    guard, the conversion loop and the slice [raw[:samples*2]], without
    the buffer handling that lies between the loop and [SetData]; the whole
    turn is [onPacket] below.  [raw] is the byte array (its length is
    [cap(raw)]); a packet with more samples than [cap(raw)] is skipped
    ([Returned None]); otherwise the result is the array after the loop and
    the slice. *)
Definition packetData (raw : list byte) (audioBuffer : list Z)
  : outcome (option (list byte * list byte)) :=
  let samples := length audioBuffer in
  if (length raw <? samples)%nat then Returned None
  else
    match fillRaw raw 0 audioBuffer with
    | Panicked => Panicked
    | Returned raw' =>
        if (length raw' <? samples * 2)%nat then Panicked
        else Returned (Some (raw', take (samples * 2) raw'))
    end.

(** OpenAL buffers, and what the OpenAL source answers while one packet is
    handled: the buffers it has finished with ([source.BuffersProcessed()]
    is their number, [source.UnqueueBuffers] hands them over) and whether
    [source.State()] is [openal.Playing]. *)
Definition Buffer : Type := nat.

Record SourceEnv : Type := mkSourceEnv {
  unqueued : list Buffer;
  playing : bool
}.

(** Calls on the source and on a buffer, in program order. *)
Inductive PlayCall : Type :=
| UnqueueBuffers (bs : list Buffer)
| SetData (b : Buffer) (data : list byte)
| QueueBuffer (b : Buffer)
| Play.

(** How one turn of the loop ends: the first two are its [continue]s. *)
Inductive PacketResult : Type :=
| Skipped
| Dropped
| Queued.

(** The closure [reclaim]: processed buffers go back to [emptyBufs]. *)
Definition reclaim (env : SourceEnv) (emptyBufs : list Buffer)
  : list Buffer * list PlayCall :=
  if (0 <? length (unqueued env))%nat
  then (emptyBufs ++ unqueued env, [UnqueueBuffers (unqueued env)])
  else (emptyBufs, []).

(** One turn of [for packet := range e.C] in [OnAudioStream]: the result,
    the array [raw] and [emptyBufs] afterwards, and the calls made. *)
Definition onPacket (env : SourceEnv) (raw : list byte) (emptyBufs : list Buffer)
    (audioBuffer : list Z)
  : outcome (PacketResult * list byte * list Buffer * list PlayCall) :=
  let samples := length audioBuffer in
  if (length raw <? samples)%nat then Returned (Skipped, raw, emptyBufs, [])
  else
    match fillRaw raw 0 audioBuffer with
    | Panicked => Panicked
    | Returned raw' =>
        let '(emptyBufs1, calls1) := reclaim env emptyBufs in
        if (length emptyBufs1 =? 0)%nat
        then Returned (Dropped, raw', emptyBufs1, calls1)
        else
          let last := (length emptyBufs1 - 1)%nat in
          match emptyBufs1 !! last with
          | None => Panicked
          | Some buffer =>
              if (length raw' <? samples * 2)%nat then Panicked
              else
                Returned
                  (Queued, raw', take last emptyBufs1,
                   calls1 ++
                   [SetData buffer (take (samples * 2) raw'); QueueBuffer buffer] ++
                   (if playing env then [] else [Play]))
          end
    end.

(** The bytes of a list of samples, two per sample, low byte first. *)
Definition sampleBytes (audioBuffer : list Z) : list byte :=
  flat_map (fun value => [to_byte (to_uint16 value);
                          to_byte (Z.shiftr (to_uint16 value) 8)])
    audioBuffer.

(** A sample in the range of [int16]. *)
Definition isInt16 (v : Z) : Prop := - 2 ^ 15 <= v < 2 ^ 15.

End gumbleopenal.

(** A stream with a microphone and a sink, not capturing. *)
Definition sampleStream : gumbleopenal.Stream :=
  gumbleopenal.mkStream 1%nat (Some 2%nat) 480 None (Some 3%nat) (Some 4%nat).

(** * Properties *)

Ltac run :=
  unfold Disconnect, close, Send, writeTo, SetVoiceTarget, gopus_NewEncoder,
    tls_DialWithDialer, getChannel, getClient, connClose, assign, act,
    mbind, M_bind, mret, M_ret in *;
  cbn [fst snd client channelObjs closedConns trace] in *.

Lemma State_eqb_eq (a b : State) : State_eqb a b = true <-> a = b.
Proof. destruct a, b; simpl; split; congruence. Qed.

Lemma disconnectEvents_app (t1 t2 : list Action) :
  disconnectEvents (t1 ++ t2) = disconnectEvents t1 ++ disconnectEvents t2.
Proof. unfold disconnectEvents. apply omap_app. Qed.

Lemma written_app (t1 t2 : list Action) :
  written (t1 ++ t2) = written t1 ++ written t2.
Proof. unfold written. apply omap_app. Qed.

(** ** NewClient *)

(** C9.  [NewClient] returns nil for a nil config; for every other config it
    returns a client in state Disconnected that holds that config. *)
Theorem NewClient_spec :
  NewClient None = None /\
  forall cfg : Config,
    exists c : Client,
      NewClient (Some cfg) = Some c /\
      state c = StateDisconnected /\
      config c = cfg.
Proof.
  split; [reflexivity|].
  intros cfg. exists (clientLiteral cfg). repeat split.
Qed.

Lemma NewClient_clean (cfg : Config) (c : Client) :
  NewClient (Some cfg) = Some c -> disconnectedClean c.
Proof. intros [= <-] _. split; reflexivity. Qed.

(** ** Send *)

Lemma Send_nil (m : Message) (w : World) :
  connection (client w) = None -> Send m w = (Some ErrState, w).
Proof. intros H. run. rewrite H. reflexivity. Qed.

Lemma Send_conn (m : Message) (w : World) (k : Conn) :
  connection (client w) = Some k ->
  Send m w =
    (None, mkWorld (client w) (channelObjs w) (closedConns w)
             (trace w ++ [ActWrite k m])).
Proof. intros H. run. rewrite H. reflexivity. Qed.

(** C5.  With a nil connection [Send] fails with [ErrState] and writes
    nothing (the world is untouched); with a connection [k] it returns nil
    and its one effect is that the encoded message is written to [k]. *)
Theorem Send_spec (m : Message) (w : World) :
  (connection (client w) = None ->
     Send m w = (Some ErrState, w) /\
     written (trace (snd (Send m w))) = written (trace w)) /\
  (forall k : Conn,
     connection (client w) = Some k ->
     fst (Send m w) = None /\
     client (snd (Send m w)) = client w /\
     channelObjs (snd (Send m w)) = channelObjs w /\
     closedConns (snd (Send m w)) = closedConns w /\
     trace (snd (Send m w)) = trace w ++ [ActWrite k m] /\
     written (trace (snd (Send m w))) = written (trace w) ++ [(k, m)]).
Proof.
  split.
  - intros H. rewrite (Send_nil m w H). split; reflexivity.
  - intros k H. rewrite (Send_conn m w k H). cbn [fst snd client channelObjs closedConns trace].
    repeat split. rewrite written_app. reflexivity.
Qed.

(** ** close *)

Lemma close_nil (ev : DisconnectEvent) (w : World) :
  connection (client w) = None -> close ev w = (Some ErrState, w).
Proof. intros H. run. rewrite H. reflexivity. Qed.

Lemma close_conn (ev : DisconnectEvent) (w : World) (k : Conn) :
  connection (client w) = Some k ->
  close ev w =
    (None,
     mkWorld (closedClient (client w)) (channelObjs w) (k :: closedConns w)
       (trace w ++
          [ActSignalEnd (end_ (client w)); ActConnClose k;
           ActAssign FConnection; ActAssign FState; ActAssign FUsers;
           ActAssign FChannels; ActAssign FContextActions; ActAssign FSelf;
           ActAssign FAudioEncoder] ++
          match CfgListener (config (client w)) with
          | Some l => [ActOnDisconnect l ev]
          | None => []
          end)).
Proof.
  intros H. run. rewrite H. cbn.
  destruct (CfgListener (config (client w))); cbn;
    rewrite <- ?app_assoc; cbn; rewrite ?app_nil_r; reflexivity.
Qed.

Lemma close_clean (ev : DisconnectEvent) (w : World) :
  disconnectedClean (client w) -> disconnectedClean (client (snd (close ev w))).
Proof.
  intros Hc. destruct (connection (client w)) as [k|] eqn:E.
  - rewrite (close_conn ev w k E). intros _. split; reflexivity.
  - rewrite (close_nil ev w E). exact Hc.
Qed.

(** C2 (as amended).  On a client with a connection [k], the first [close]
    returns nil, closes [k], leaves the client Disconnected with connection,
    users, channels, contextActions, self and audioEncoder nil, and hands
    the event to the configured listener exactly once (to nobody when the
    configuration has no listener).  Any further [close], whether through
    [Disconnect] or through the read goroutine's deferred call, returns
    [ErrState] and leaves the whole world, trace included, as it was. *)
Theorem close_idempotent (w : World) (k : Conn) (ev : DisconnectEvent) :
  connection (client w) = Some k ->
  fst (close ev w) = None /\
  isClosed k (snd (close ev w)) = true /\
  client (snd (close ev w)) = closedClient (client w) /\
  state (client (snd (close ev w))) = StateDisconnected /\
  connection (client (snd (close ev w))) = None /\
  users (client (snd (close ev w))) = None /\
  channels (client (snd (close ev w))) = None /\
  contextActions (client (snd (close ev w))) = None /\
  self (client (snd (close ev w))) = None /\
  audioEncoder (client (snd (close ev w))) = None /\
  disconnectEvents (trace (snd (close ev w))) =
    disconnectEvents (trace w) ++ notified (config (client w)) ev /\
  (forall ev' : DisconnectEvent,
     close ev' (snd (close ev w)) = (Some ErrState, snd (close ev w))) /\
  Disconnect (snd (close ev w)) = (Some ErrState, snd (close ev w)) /\
  (forall (ex : LoopExit) (rest : list byte),
     deferredClose (ex, rest, snd (close ev w)) = ((ex, rest), snd (close ev w))).
Proof.
  intros H. rewrite (close_conn ev w k H).
  cbn [fst snd client channelObjs closedConns trace].
  repeat split; try reflexivity.
  - unfold isClosed. cbn. rewrite Nat.eqb_refl. reflexivity.
  - rewrite !disconnectEvents_app. unfold notified.
    destruct (CfgListener (config (client w))); cbn; rewrite ?app_nil_r; reflexivity.
Qed.

Lemma close_idempotent_witness :
  connection (client (liveWorld (Some 3%nat))) = Some 7%nat /\
  disconnectEvents
    (trace (snd (close {| ev_Type := DisconnectUser |} (liveWorld (Some 3%nat))))) =
    disconnectEvents (trace (liveWorld (Some 3%nat))) ++
    [(3%nat, {| ev_Type := DisconnectUser |})].
Proof.
  split; [reflexivity|].
  apply (close_idempotent (liveWorld (Some 3%nat)) 7%nat
           {| ev_Type := DisconnectUser |}).
  reflexivity.
Defined.

(** C2, as first stated, fails: a connected client whose configuration has
    no listener is closed without any Disconnect event being delivered. *)
Lemma close_without_listener_counterexample :
  connection (client (liveWorld None)) = Some 7%nat /\
  fst (close {| ev_Type := DisconnectUser |} (liveWorld None)) = None /\
  disconnectEvents
    (trace (snd (close {| ev_Type := DisconnectUser |} (liveWorld None)))) = [] /\
  length (disconnectEvents
            (trace (snd (close {| ev_Type := DisconnectUser |} (liveWorld None)))))
    <> 1%nat.
Proof. repeat split; try reflexivity. vm_compute. discriminate. Qed.

(** ** Connect *)

Lemma Connect_wrong_state (env : Env) (w : World) :
  state (client w) <> StateDisconnected -> Connect env w = (Some ErrState, w).
Proof.
  intros H. unfold Connect. run.
  destruct (State_eqb (state (client w)) StateDisconnected) eqn:E; [|reflexivity].
  apply State_eqb_eq in E. contradiction.
Qed.

Lemma Connect_encoder_fails (env : Env) (w : World) (e : string) :
  state (client w) = StateDisconnected ->
  newEncoderError env = Some e ->
  Connect env w =
    (Some (ErrEncoder e),
     mkWorld (client w) (channelObjs w) (closedConns w)
       (trace w ++ [ActNewEncoder AudioSampleRate 1 Voip])).
Proof.
  intros Hs He. unfold Connect. run. rewrite Hs, He. reflexivity.
Qed.

Lemma Connect_dial_fails (env : Env) (w : World) (e : string) :
  state (client w) = StateDisconnected ->
  newEncoderError env = None ->
  dialResult env = inr e ->
  Connect env w =
    (Some (ErrDial e),
     mkWorld (set_audioEncoder None (set_audioTarget None
                (set_audioSequence 0 (client w))))
       (channelObjs w) (closedConns w)
       (trace w ++
          [ActNewEncoder AudioSampleRate 1 Voip; ActSetVbr false;
           ActAssign FAudioEncoder; ActAssign FAudioSequence;
           ActAssign FAudioTarget;
           ActDial (Dialer (config (client w))) "tcp"
             (Address (config (client w))) (TlsConfig (config (client w)));
           ActAssign FAudioEncoder])).
Proof.
  intros Hs He Hd. unfold Connect. run. rewrite Hs, He. cbn. rewrite Hd. cbn.
  rewrite <- !app_assoc. reflexivity.
Qed.

Lemma Connect_succeeds (env : Env) (w : World) (conn : Conn) :
  state (client w) = StateDisconnected ->
  newEncoderError env = None ->
  dialResult env = inl conn ->
  Connect env w =
    (None,
     mkWorld (connectedClient env (client w) conn) (channelObjs w) (closedConns w)
       (trace w ++ connectSteps env (config (client w)) conn)).
Proof.
  intros Hs He Hd. unfold Connect. run. rewrite Hs, He. cbn. rewrite Hd. cbn.
  rewrite <- !app_assoc. reflexivity.
Qed.

Lemma Connect_cases (env : Env) (w : World) :
  state (client w) = StateDisconnected ->
  (exists e, newEncoderError env = Some e) \/
  (exists e, newEncoderError env = None /\ dialResult env = inr e) \/
  (exists conn, newEncoderError env = None /\ dialResult env = inl conn).
Proof.
  intros _. destruct (newEncoderError env) as [e|]; [left; eauto|].
  destruct (dialResult env) as [conn|e]; right; [right|left]; eauto.
Qed.

Lemma Connect_not_refused (env : Env) (w : World) :
  state (client w) = StateDisconnected -> fst (Connect env w) <> Some ErrState.
Proof.
  intros Hs H.
  destruct (Connect_cases env w Hs) as [[e He]|[[e [He Hd]]|[conn [He Hd]]]].
  - rewrite (Connect_encoder_fails env w e Hs He) in H. discriminate.
  - rewrite (Connect_dial_fails env w e Hs He Hd) in H. discriminate.
  - rewrite (Connect_succeeds env w conn Hs He Hd) in H. discriminate.
Qed.

(** C3.  [Connect] returns [ErrState] exactly when the client is not in
    state Disconnected at the call, and in that case nothing at all is
    changed: the client, the heap and the trace are as before. *)
Theorem Connect_ErrState_iff (env : Env) (w : World) :
  (fst (Connect env w) = Some ErrState <-> state (client w) <> StateDisconnected) /\
  (state (client w) <> StateDisconnected ->
     Connect env w = (Some ErrState, w) /\ client (snd (Connect env w)) = client w).
Proof.
  split.
  - split.
    + intros H Hs. exact (Connect_not_refused env w Hs H).
    + intros H. rewrite (Connect_wrong_state env w H). reflexivity.
  - intros H. rewrite (Connect_wrong_state env w H). split; reflexivity.
Qed.

Lemma Connect_clean (env : Env) (w : World) :
  disconnectedClean (client w) -> disconnectedClean (client (snd (Connect env w))).
Proof.
  intros Hc.
  destruct (State_eqb (state (client w)) StateDisconnected) eqn:E.
  - apply State_eqb_eq in E. destruct (Hc E) as [Hk Ha].
    destruct (Connect_cases env w E) as [[e He]|[[e [He Hd]]|[conn [He Hd]]]].
    + rewrite (Connect_encoder_fails env w e E He). exact Hc.
    + rewrite (Connect_dial_fails env w e E He Hd). intros _. split; [exact Hk | reflexivity].
    + rewrite (Connect_succeeds env w conn E He Hd). intros H. discriminate H.
  - assert (H : state (client w) <> StateDisconnected).
    { intros H. apply State_eqb_eq in H. congruence. }
    rewrite (Connect_wrong_state env w H). exact Hc.
Qed.

(** C10.  From a disconnected client (no connection, no encoder), a
    [Connect] in which the encoder cannot be created, or in which the dial
    fails, returns that very error and leaves the client Disconnected with
    connection and audioEncoder nil; no field other than audioSequence and
    audioTarget (which the dial path has reset by then) differs from
    before.  A later [Connect] is not refused with [ErrState], and succeeds
    as soon as encoder and dial do. *)
Theorem Connect_failure_atomic (env : Env) (w : World) (err : error) :
  state (client w) = StateDisconnected ->
  connection (client w) = None ->
  audioEncoder (client w) = None ->
  (exists e, newEncoderError env = Some e /\ err = ErrEncoder e) \/
  (exists e, newEncoderError env = None /\ dialResult env = inr e /\ err = ErrDial e) ->
  fst (Connect env w) = Some err /\
  state (client (snd (Connect env w))) = StateDisconnected /\
  connection (client (snd (Connect env w))) = None /\
  audioEncoder (client (snd (Connect env w))) = None /\
  set_audioTarget (audioTarget (client w))
    (set_audioSequence (audioSequence (client w)) (client (snd (Connect env w)))) =
    client w /\
  (forall env' : Env, fst (Connect env' (snd (Connect env w))) <> Some ErrState) /\
  (forall (env' : Env) (conn : Conn),
     newEncoderError env' = None -> dialResult env' = inl conn ->
     fst (Connect env' (snd (Connect env w))) = None).
Proof.
  intros Hs Hk Ha Hfail.
  assert (Hgen : forall w', state (client w') = StateDisconnected ->
            (forall env', fst (Connect env' w') <> Some ErrState) /\
            (forall env' conn, newEncoderError env' = None ->
               dialResult env' = inl conn -> fst (Connect env' w') = None)).
  { intros w' Hs'. split.
    - intros env'. apply Connect_not_refused. exact Hs'.
    - intros env' conn He Hd. rewrite (Connect_succeeds env' w' conn Hs' He Hd). reflexivity. }
  destruct Hfail as [[e [He ->]]|[e [He [Hd ->]]]].
  - rewrite (Connect_encoder_fails env w e Hs He).
    cbn [fst snd client]. repeat split; try assumption; try (apply Hgen; assumption).
    destruct w as [cl ? ? ?]. destruct cl. reflexivity.
  - rewrite (Connect_dial_fails env w e Hs He Hd).
    cbn [fst snd client]. repeat split; try assumption; try (apply Hgen; assumption).
    destruct w as [cl ? ? ?]. destruct cl. cbn in *. subst. reflexivity.
Qed.

Lemma Connect_failure_atomic_witness :
  fst (Connect sampleEnvNoRoute (freshWorld None)) =
    Some (ErrDial "dial tcp: connection refused") /\
  state (client (snd (Connect sampleEnvNoRoute (freshWorld None)))) = StateDisconnected /\
  fst (Connect sampleEnvNoCodec (freshWorld None)) =
    Some (ErrEncoder "opus: internal error").
Proof.
  split; [|split].
  - apply (Connect_failure_atomic sampleEnvNoRoute (freshWorld None)
             (ErrDial "dial tcp: connection refused"));
      try reflexivity.
    right. exists "dial tcp: connection refused". repeat split.
  - apply (Connect_failure_atomic sampleEnvNoRoute (freshWorld None)
             (ErrDial "dial tcp: connection refused"));
      try reflexivity.
    right. exists "dial tcp: connection refused". repeat split.
  - apply (Connect_failure_atomic sampleEnvNoCodec (freshWorld None)
             (ErrEncoder "opus: internal error"));
      try reflexivity.
    left. exists "opus: internal error". repeat split.
Defined.

(** C4 (as amended).  A successful [Connect] performs exactly these steps,
    in this order: create the encoder (48 kHz, 1 channel, VoIP), switch VBR
    off, store it, reset the audio sequence counter and the audio target;
    dial with the configured dialer, address and TLS configuration; store
    the connection; allocate empty users, channels and context actions; set
    the state to Connected; make the end channel; launch the read
    goroutine, then the keep-alive goroutine; write Version, then
    Authenticate (configured username, password and tokens, opus = true). *)
Theorem Connect_steps (env : Env) (w : World) :
  fst (Connect env w) = None ->
  exists conn : Conn,
    dialResult env = inl conn /\
    newEncoderError env = None /\
    state (client w) = StateDisconnected /\
    trace (snd (Connect env w)) =
      trace w ++ connectSteps env (config (client w)) conn /\
    client (snd (Connect env w)) = connectedClient env (client w) conn /\
    inOrder encoderFirstOrder (connectSteps env (config (client w)) conn) = true.
Proof.
  intros H.
  destruct (State_eqb (state (client w)) StateDisconnected) eqn:E.
  - apply State_eqb_eq in E.
    destruct (Connect_cases env w E) as [[e He]|[[e [He Hd]]|[conn [He Hd]]]].
    + rewrite (Connect_encoder_fails env w e E He) in H. discriminate.
    + rewrite (Connect_dial_fails env w e E He Hd) in H. discriminate.
    + exists conn. rewrite (Connect_succeeds env w conn E He Hd).
      repeat split; assumption.
  - assert (Hne : state (client w) <> StateDisconnected).
    { intros Hs. apply State_eqb_eq in Hs. congruence. }
    rewrite (Connect_wrong_state env w Hne) in H. discriminate.
Qed.

Lemma Connect_steps_witness :
  fst (Connect sampleEnv (freshWorld None)) = None /\
  exists conn : Conn,
    trace (snd (Connect sampleEnv (freshWorld None))) =
      connectSteps sampleEnv (sampleConfig None) conn.
Proof.
  split; [reflexivity|].
  destruct (Connect_steps sampleEnv (freshWorld None) eq_refl)
    as [conn [_ [_ [_ [Ht _]]]]].
  exists conn. exact Ht.
Defined.

(** C4, as first stated, fails: in a successful [Connect] the encoder is
    created (step 0) before the dial (step 5), not after it. *)
Lemma Connect_dial_first_counterexample :
  fst (Connect sampleEnv (freshWorld None)) = None /\
  indexOf isNewEncoder (trace (snd (Connect sampleEnv (freshWorld None)))) = Some 0%nat /\
  indexOf isDial (trace (snd (Connect sampleEnv (freshWorld None)))) = Some 5%nat /\
  inOrder dialFirstOrder (trace (snd (Connect sampleEnv (freshWorld None)))) = false.
Proof. repeat split. Qed.

(** ** Channel.Find *)

Lemma rangeLoop_skip {A R : Type} (body : A -> outcome (option R))
    (pre post : list A) :
  (forall p, p ∈ pre -> body p = Returned None) ->
  rangeLoop body (pre ++ post) = rangeLoop body post.
Proof.
  induction pre as [|p pre IH]; intros Hpre; [reflexivity|].
  cbn. rewrite (Hpre p) by apply list_elem_of_here.
  apply IH. intros q Hq. apply Hpre. by apply list_elem_of_further.
Qed.

Lemma rangeLoop_none {A R : Type} (body : A -> outcome (option R)) (xs : list A) :
  (forall p, p ∈ xs -> body p = Returned None) ->
  rangeLoop body xs = Returned None.
Proof.
  intros H. rewrite <- (app_nil_r xs). rewrite (rangeLoop_skip body xs [] H).
  reflexivity.
Qed.

(** Splitting a list at the first element that satisfies a test. *)
Lemma first_hit {A : Type} (f : A -> bool) (xs : list A) :
  (exists x, x ∈ xs /\ f x = true) ->
  exists pre x post,
    xs = pre ++ x :: post /\ f x = true /\ forall p, p ∈ pre -> f p = false.
Proof.
  induction xs as [|y xs IH]; intros [x [Hin Hx]].
  - by apply not_elem_of_nil in Hin.
  - destruct (f y) eqn:Ey.
    + exists [], y, xs. repeat split; [exact Ey|].
      intros p Hp. by apply not_elem_of_nil in Hp.
    + apply elem_of_cons in Hin as [->|Hin]; [congruence|].
      destruct IH as [pre [z [post [-> [Hz Hpre]]]]]; [eauto|].
      exists (y :: pre), z, post. repeat split; [exact Hz|].
      intros p Hp. apply elem_of_cons in Hp as [->|Hp]; [exact Ey | by apply Hpre].
Qed.

Lemma Channel_Find_hit (h : gmap nat Channel) (c : ChannelPtr) (ch : Channel)
    (first : string) (rest : list string) (pre post : list ChannelPtr)
    (k : ChannelPtr) :
  deref h c = Some ch ->
  default [] (children ch) = pre ++ k :: post ->
  (forall p, p ∈ pre -> is_Some (deref h p) /\ named h first p = false) ->
  named h first k = true ->
  Channel_Find h (first :: rest) c = Channel_Find h rest k.
Proof.
  intros Hc Hkids Hpre Hk. cbn [Channel_Find]. rewrite Hc, Hkids.
  rewrite rangeLoop_skip.
  - cbn [rangeLoop]. unfold named in Hk.
    destruct (deref h k) as [chd|]; [|discriminate]. rewrite Hk.
    destruct (Channel_Find h rest k); reflexivity.
  - intros p Hp. destruct (Hpre p Hp) as [[chp Hchp] Hn].
    unfold named in Hn. rewrite Hchp in *. rewrite Hn. reflexivity.
Qed.

Lemma Channel_Find_miss (h : gmap nat Channel) (c : ChannelPtr) (ch : Channel)
    (first : string) (rest : list string) :
  deref h c = Some ch ->
  (forall p, p ∈ default [] (children ch) ->
     is_Some (deref h p) /\ named h first p = false) ->
  Channel_Find h (first :: rest) c = Returned None.
Proof.
  intros Hc Hall. cbn [Channel_Find]. rewrite Hc.
  rewrite rangeLoop_none; [reflexivity|].
  intros p Hp. destruct (Hall p Hp) as [[chp Hchp] Hn].
  unfold named in Hn. rewrite Hchp in *. rewrite Hn. reflexivity.
Qed.

(** C6.  [Find] with no names returns the receiver.  For a channel [c] whose
    child pointers are all live and a path [first :: rest]: if some child
    is called [first], the result is that of [Find rest] on such a child
    (the first one the [range] loop meets); if no child is called [first],
    the result is nil. *)
Theorem Channel_Find_spec (h : gmap nat Channel) (c : ChannelPtr) (ch : Channel)
    (first : string) (rest : list string) :
  deref h c = Some ch ->
  Forall (fun p => is_Some (deref h p)) (default [] (children ch)) ->
  (forall c' : ChannelPtr, Channel_Find h [] c' = Returned c') /\
  ((exists child chd,
      child ∈ default [] (children ch) /\ deref h child = Some chd /\
      name chd = first) ->
   exists pre child chd post,
     default [] (children ch) = pre ++ child :: post /\
     deref h child = Some chd /\ name chd = first /\
     (forall p chp, p ∈ pre -> deref h p = Some chp -> name chp <> first) /\
     Channel_Find h (first :: rest) c = Channel_Find h rest child) /\
  ((forall child chd,
      child ∈ default [] (children ch) -> deref h child = Some chd ->
      name chd <> first) ->
   Channel_Find h (first :: rest) c = Returned None).
Proof.
  intros Hc Hlive. rewrite Forall_forall in Hlive.
  split; [reflexivity|]. split.
  - intros [child [chd [Hin [Hd Hn]]]].
    destruct (first_hit (named h first) (default [] (children ch)))
      as [pre [k [post [Hsplit [Hk Hpre]]]]].
    { exists child. split; [exact Hin|]. unfold named. rewrite Hd.
      by apply String.eqb_eq. }
    assert (Hkd : exists kd, deref h k = Some kd /\ name kd = first).
    { unfold named in Hk. destruct (deref h k) as [kd|]; [|discriminate].
      exists kd. split; [reflexivity | by apply String.eqb_eq]. }
    destruct Hkd as [kd [Hkd Hkn]].
    exists pre, k, kd, post. repeat split; try assumption.
    + intros p chp Hp Hchp Heq. specialize (Hpre p Hp). unfold named in Hpre.
      rewrite Hchp in Hpre. apply String.eqb_neq in Hpre. contradiction.
    + apply (Channel_Find_hit h c ch first rest pre post k Hc Hsplit); [|exact Hk].
      intros p Hp. split; [|by apply Hpre].
      apply Hlive. rewrite Hsplit. apply elem_of_app. by left.
  - intros Hnone. apply (Channel_Find_miss h c ch first rest Hc).
    intros p Hp. destruct (Hlive p Hp) as [chp Hchp]. split; [eauto|].
    unfold named. rewrite Hchp. apply String.eqb_neq. by apply (Hnone p chp).
Qed.

Lemma Channel_Find_spec_witness :
  deref sampleChannels (Some 0%nat) =
    Some (mkChannel 0 None (Some [Some 1%nat; Some 2%nat]) "Root" EmptyString None 0 false) /\
  Forall (fun p => is_Some (deref sampleChannels p)) [Some 1%nat; Some 2%nat] /\
  (exists pre child chd post,
     [Some 1%nat; Some 2%nat] = pre ++ child :: post /\
     deref sampleChannels child = Some chd /\ name chd = "Lobby" /\
     (forall p chp, p ∈ pre -> deref sampleChannels p = Some chp ->
        name chp <> "Lobby") /\
     Channel_Find sampleChannels ["Lobby"; "Quiet"] (Some 0%nat) =
       Channel_Find sampleChannels ["Quiet"] child) /\
  Channel_Find sampleChannels ["Attic"] (Some 0%nat) = Returned None.
Proof.
  assert (Hlive : Forall (fun p => is_Some (deref sampleChannels p))
                    [Some 1%nat; Some 2%nat]).
  { repeat constructor; eexists; reflexivity. }
  split; [reflexivity|]. split; [exact Hlive|]. split.
  - apply (Channel_Find_spec sampleChannels (Some 0%nat) _ "Lobby" ["Quiet"]
             eq_refl Hlive).
    exists (Some 1%nat). eexists. split; [apply list_elem_of_here|].
    split; reflexivity.
  - apply (Channel_Find_spec sampleChannels (Some 0%nat) _ "Attic" []
             eq_refl Hlive).
    intros child chd Hin Hd Hn.
    apply elem_of_cons in Hin as [->|Hin].
    { vm_compute in Hd. injection Hd as <-. discriminate Hn. }
    apply elem_of_cons in Hin as [->|Hin].
    { vm_compute in Hd. injection Hd as <-. discriminate Hn. }
    by apply not_elem_of_nil in Hin.
Defined.

(** ** Request methods *)

Lemma Send_requested (m : ProtoMessage) (w : World) :
  snd (Send (protoMessage m) w) = requested m w.
Proof.
  unfold requested. destruct (connection (client w)) as [k|] eqn:E.
  - rewrite (Send_conn _ w k E). reflexivity.
  - rewrite (Send_nil _ w E). destruct w. cbn. rewrite app_nil_r. reflexivity.
Qed.

Lemma requested_frame (m : ProtoMessage) (w : World) :
  client (requested m w) = client w /\
  channelObjs (requested m w) = channelObjs w /\
  closedConns (requested m w) = closedConns w.
Proof. repeat split. Qed.

(** C8.  On a live channel pointer, [Add], [Remove], [SetName] and
    [SetDescription] return after at most writing their one frame (it is
    written when the client has a connection): the client's fields and
    every channel object are as before.  [SetVoiceTarget] assigns
    [audioTarget], changes no other field, and writes nothing. *)
Theorem requests_do_not_mutate (w : World) (c : ChannelPtr) (ch : Channel)
    (nm descr : string) (temp : bool) (target : VoiceTargetPtr) :
  deref (channelObjs w) c = Some ch ->
  (Channel_Add c nm temp w =
     (Returned tt,
      requested (PChannelState (mkChannelStateMsg None (Some (id ch)) (Some nm)
                                  None (Some temp))) w) /\
   Channel_Remove c w = (Returned tt, requested (PChannelRemove (id ch)) w) /\
   Channel_SetName c nm w =
     (Returned tt,
      requested (PChannelState (mkChannelStateMsg (Some (id ch)) None (Some nm)
                                  None None)) w) /\
   Channel_SetDescription c descr w =
     (Returned tt,
      requested (PChannelState (mkChannelStateMsg (Some (id ch)) None None
                                  (Some descr) None)) w)) /\
  (forall m : ProtoMessage,
     client (requested m w) = client w /\
     channelObjs (requested m w) = channelObjs w /\
     closedConns (requested m w) = closedConns w /\
     length (written (trace (requested m w))) <= S (length (written (trace w))))%nat /\
  SetVoiceTarget target w =
    (tt, mkWorld (set_audioTarget target (client w)) (channelObjs w)
           (closedConns w) (trace w ++ [ActAssign FAudioTarget])) /\
  audioTarget (client (snd (SetVoiceTarget target w))) = target /\
  set_audioTarget (audioTarget (client w)) (client (snd (SetVoiceTarget target w))) =
    client w /\
  channelObjs (snd (SetVoiceTarget target w)) = channelObjs w /\
  written (trace (snd (SetVoiceTarget target w))) = written (trace w).
Proof.
  intros Hc.
  assert (Hrun : forall m,
            (_ ← Send (protoMessage m); ret (Returned tt)) w
            = (Returned tt, requested m w)).
  { intros m. unfold mbind at 1, M_bind.
    rewrite (surjective_pairing (Send (protoMessage m) w)), Send_requested.
    reflexivity. }
  split; [|split].
  - unfold Channel_Add, Channel_Remove, Channel_SetName, Channel_SetDescription.
    unfold getChannel, mbind at 1 3 5 7, M_bind. rewrite Hc.
    rewrite !Hrun. repeat split.
  - intros m. repeat split. unfold requested. cbn [trace].
    rewrite written_app, length_app.
    destruct (connection (client w)); cbn; lia.
  - unfold SetVoiceTarget, assign. cbn [fst snd client channelObjs trace].
    repeat split.
    + destruct w as [cl ? ? ?]. destruct cl. reflexivity.
    + rewrite written_app. cbn. apply app_nil_r.
Qed.

Lemma requests_do_not_mutate_witness :
  deref (channelObjs (liveWorld None)) (Some 1%nat) =
    Some (mkChannel 1 (Some 0%nat) (Some [Some 3%nat]) "Lobby" EmptyString None 0 false) /\
  client (snd (Channel_Add (Some 1%nat) "Annex" true (liveWorld None))) =
    client (liveWorld None) /\
  channelObjs (snd (Channel_Add (Some 1%nat) "Annex" true (liveWorld None))) =
    channelObjs (liveWorld None).
Proof.
  split; [reflexivity|].
  destruct (requests_do_not_mutate (liveWorld None) (Some 1%nat) _ "Annex" EmptyString
              true None eq_refl) as [[Hadd _] _].
  rewrite Hadd. cbn [snd]. split; apply requested_frame.
Defined.

(** ** The read goroutine *)

Lemma be_uint_acc (bs : list byte) (acc : Z) :
  fold_left (fun a b => a * 256 + Z.of_N (Byte.to_N b)) bs acc =
  acc * 256 ^ Z.of_nat (length bs) + be_uint bs.
Proof.
  unfold be_uint. revert acc.
  induction bs as [|b bs IH]; intros acc.
  - cbn. lia.
  - cbn [fold_left length]. rewrite IH, (IH (0 * 256 + _)).
    rewrite Nat2Z.inj_succ, Z.pow_succ_r by lia. lia.
Qed.

Lemma be_uint_range (bs : list byte) :
  0 <= be_uint bs < 256 ^ Z.of_nat (length bs).
Proof.
  induction bs as [|b bs IH].
  - cbn. lia.
  - unfold be_uint. cbn [fold_left length]. rewrite be_uint_acc.
    rewrite Nat2Z.inj_succ, Z.pow_succ_r by lia.
    pose proof (Byte.to_N_bounded b) as Hb.
    assert (0 <= Z.of_N (Byte.to_N b) <= 255) by lia.
    assert (0 < 256 ^ Z.of_nat (length bs)) by (apply Z.pow_pos_nonneg; lia).
    nia.
Qed.

Lemma to_int_small (x : Z) : 0 <= x < 2 ^ 32 -> to_int x = x.
Proof.
  intros H. unfold to_int, intSize.
  change (2 ^ 32) with 4294967296 in H.
  change (2 ^ 64) with 18446744073709551616.
  change (2 ^ (64 - 1)) with 9223372036854775808.
  rewrite Z.mod_small by lia.
  destruct (Z.ltb_spec x 9223372036854775808); lia.
Qed.

Lemma connRead_exact (k : Conn) (n : Z) (pre rest : list byte) (w : World) :
  Z.of_nat (length pre) = n ->
  connRead k n (pre ++ rest) w = (Some pre, rest).
Proof.
  intros Hn. unfold connRead.
  rewrite length_app.
  destruct (Z.ltb_spec (Z.of_nat (length pre + length rest)) n); [lia|].
  subst n. rewrite Nat2Z.id.
  rewrite take_app_length, drop_app_length. reflexivity.
Qed.

Lemma connRead_open (k : Conn) (n : Z) (pre rest : list byte) (w : World) :
  isClosed k w = false ->
  Z.of_nat (length pre) = n ->
  connRead k n (pre ++ rest) w = (Some pre, rest).
Proof. intros _. apply connRead_exact. Qed.

Lemma connRead_length (k : Conn) (n : Z) (input : list byte) (w : World)
    (x rest : list byte) :
  0 <= n ->
  connRead k n input w = (Some x, rest) ->
  (length rest + Z.to_nat n = length input)%nat.
Proof.
  intros Hn. unfold connRead.
  destruct (Z.ltb_spec (Z.of_nat (length input)) n); [discriminate|].
  intros [= <- <-]. rewrite length_drop. lia.
Qed.

Lemma connRead_some_length (k : Conn) (n : Z) (input : list byte) (w : World)
    (x rest : list byte) :
  0 <= n ->
  connRead k n input w = (Some x, rest) ->
  Z.of_nat (length x) = n.
Proof.
  intros Hn. unfold connRead.
  destruct (Z.ltb_spec (Z.of_nat (length input)) n); [discriminate|].
  intros [= <- <-]. rewrite length_take. lia.
Qed.

Lemma header_length_range (lb : list byte) :
  length lb = 4%nat -> 0 <= be_uint lb < 2 ^ 32.
Proof.
  intros H. pose proof (be_uint_range lb) as Hr. rewrite H in Hr.
  change (256 ^ Z.of_nat 4) with (2 ^ 32) in Hr. exact Hr.
Qed.

(** Fuel: any amount above the number of unread bytes gives the same,
    defined, result, whatever the buffer capacity. *)
Lemma readLoop_fuel (handlers : gmap Z Handler) (fuel : nat) :
  forall (fuel' : nat) (conn : Conn) (cap cap' : Z) (input : list byte) (w : World),
    (length input < fuel)%nat ->
    (length input < fuel')%nat ->
    readLoop handlers fuel conn cap input w =
      readLoop handlers fuel' conn cap' input w /\
    is_Some (readLoop handlers fuel conn cap input w).
Proof.
  induction fuel as [|fuel IH]; intros fuel' conn cap cap' input w Hf Hf'; [lia|].
  destruct fuel' as [|fuel']; [lia|].
  cbn [readLoop].
  destruct (connRead conn 2 input w) as [[tb|] in1] eqn:E1; [|split; eauto].
  apply connRead_length in E1; [|lia].
  destruct (connRead conn 4 in1 w) as [[lb|] in2] eqn:E2; [|split; eauto].
  apply connRead_length in E2; [|lia].
  destruct (to_int (be_uint lb) >? maximumPacketSize); [split; eauto|].
  destruct (Z.ltb_spec (to_int (be_uint lb)) 0) as [|Hnn]; [split; eauto|].
  destruct (connRead conn (to_int (be_uint lb)) in2 w) as [[payload|] in3] eqn:E3;
    [|split; eauto].
  apply connRead_length in E3; [|exact Hnn].
  apply IH; lia.
Qed.

Lemma runLoop_eq (handlers : gmap Z Handler) (fuel : nat) (conn : Conn) (cap : Z)
    (input : list byte) (w : World) :
  (length input < fuel)%nat ->
  readLoop handlers fuel conn cap input w = Some (runLoop handlers conn input w).
Proof.
  intros Hf. unfold runLoop.
  destruct (readLoop_fuel handlers (S (length input)) fuel conn 1024 cap input w)
    as [Heq [r Hr]]; [lia | exact Hf |].
  rewrite <- Heq, Hr. reflexivity.
Qed.

(** The loop always comes to an end with a result. *)
Lemma runLoop_total (handlers : gmap Z Handler) (conn : Conn) (input : list byte)
    (w : World) :
  exists r, readLoop handlers (S (length input)) conn 1024 input w = Some r /\
            runLoop handlers conn input w = r.
Proof.
  exists (runLoop handlers conn input w). split; [|reflexivity].
  apply runLoop_eq. lia.
Qed.

(** With a 64-bit [int] the slice expression [data[:pLengthInt]] is always
    in bounds: the loop is only ever left by one of its [return]s. *)
Lemma readLoop_no_panic (handlers : gmap Z Handler) (fuel : nat) :
  forall (conn : Conn) (cap : Z) (input : list byte) (w : World)
         (ex : LoopExit) (rest : list byte) (w' : World),
    readLoop handlers fuel conn cap input w = Some (ex, rest, w') ->
    ex = ExitReturn.
Proof.
  induction fuel as [|fuel IH]; intros conn cap input w ex rest w'; [discriminate|].
  cbn [readLoop].
  destruct (connRead conn 2 input w) as [[tb|] in1]; [|congruence].
  destruct (connRead conn 4 in1 w) as [[lb|] in2] eqn:E2; [|congruence].
  apply connRead_some_length in E2; [|lia].
  assert (Hlb : length lb = 4%nat) by lia.
  rewrite (to_int_small _ (header_length_range lb Hlb)).
  destruct (be_uint lb >? maximumPacketSize); [congruence|].
  pose proof (header_length_range lb Hlb).
  destruct (Z.ltb_spec (be_uint lb) 0); [lia|].
  destruct (connRead conn (be_uint lb) in2 w) as [[payload|] in3]; [|congruence].
  apply IH.
Qed.

Lemma runLoop_no_panic (handlers : gmap Z Handler) (conn : Conn)
    (input : list byte) (w : World) :
  fst (fst (runLoop handlers conn input w)) = ExitReturn.
Proof.
  destruct (runLoop_total handlers conn input w) as [[[ex rest] w'] [Hr ->]].
  apply (readLoop_no_panic handlers _ _ _ _ _ _ _ _ Hr).
Qed.

(** A stream that ends inside a header ends the loop. *)
Lemma runLoop_eof (handlers : gmap Z Handler) (conn : Conn) (input : list byte)
    (w : World) :
  (length input < 6)%nat ->
  runLoop handlers conn input w = (ExitReturn, [], w).
Proof.
  intros Hshort. unfold runLoop. cbn [readLoop]. unfold connRead at 1.
  destruct (Z.ltb_spec (Z.of_nat (length input)) 2); [reflexivity|].
  unfold connRead. rewrite length_drop.
  destruct (Z.ltb_spec (Z.of_nat (length input - Z.to_nat 2)) 4); [reflexivity|lia].
Qed.

(** One turn on an oversize header. *)
Lemma runLoop_oversize_turn (handlers : gmap Z Handler) (conn : Conn)
    (tb lb rest : list byte) (w : World) :
  length tb = 2%nat -> length lb = 4%nat ->
  maximumPacketSize < be_uint lb ->
  runLoop handlers conn (tb ++ lb ++ rest) w = (ExitReturn, rest, w).
Proof.
  intros Ht Hl Hbig. unfold runLoop. cbn [readLoop].
  rewrite (connRead_exact conn 2 tb (lb ++ rest) w) by lia.
  rewrite (connRead_exact conn 4 lb rest w) by lia.
  rewrite (to_int_small _ (header_length_range lb Hl)).
  destruct (Z.gtb_spec (be_uint lb) maximumPacketSize); [reflexivity | lia].
Qed.

(** One turn on a complete packet. *)
Lemma runLoop_packet_turn (handlers : gmap Z Handler) (conn : Conn)
    (tb lb payload rest : list byte) (w : World) :
  length tb = 2%nat -> length lb = 4%nat ->
  Z.of_nat (length payload) = be_uint lb ->
  be_uint lb <= maximumPacketSize ->
  runLoop handlers conn (tb ++ lb ++ payload ++ rest) w =
    runLoop handlers conn rest (dispatch handlers (be_uint tb) payload w).
Proof.
  intros Ht Hl Hp Hsmall. unfold runLoop at 1. cbn [readLoop].
  rewrite (connRead_exact conn 2 tb (lb ++ payload ++ rest) w) by lia.
  rewrite (connRead_exact conn 4 lb (payload ++ rest) w) by lia.
  rewrite (to_int_small _ (header_length_range lb Hl)).
  destruct (Z.gtb_spec (be_uint lb) maximumPacketSize); [lia|].
  destruct (Z.ltb_spec (be_uint lb) 0); [lia|].
  rewrite (connRead_exact conn (be_uint lb) payload rest w) by lia.
  rewrite runLoop_eq; [reflexivity|].
  rewrite !length_app. lia.
Qed.

Lemma runLoop_oversize (handlers : gmap Z Handler) (conn : Conn)
    (tb lb rest : list byte) (w : World) :
  isClosed conn w = false ->
  length tb = 2%nat -> length lb = 4%nat ->
  maximumPacketSize < be_uint lb ->
  runLoop handlers conn (tb ++ lb ++ rest) w = (ExitReturn, rest, w).
Proof.
  intros Ho Ht Hl Hbig. unfold runLoop. cbn [readLoop].
  rewrite (connRead_open conn 2 tb (lb ++ rest) w Ho) by lia.
  rewrite (connRead_open conn 4 lb rest w Ho) by lia.
  rewrite (to_int_small _ (header_length_range lb Hl)).
  destruct (Z.gtb_spec (be_uint lb) maximumPacketSize); [reflexivity | lia].
Qed.

Lemma runLoop_packet (handlers : gmap Z Handler) (conn : Conn)
    (tb lb payload rest : list byte) (w : World) :
  isClosed conn w = false ->
  length tb = 2%nat -> length lb = 4%nat ->
  Z.of_nat (length payload) = be_uint lb ->
  be_uint lb <= maximumPacketSize ->
  runLoop handlers conn (tb ++ lb ++ payload ++ rest) w =
    runLoop handlers conn rest (dispatch handlers (be_uint tb) payload w).
Proof.
  intros Ho Ht Hl Hp Hsmall. unfold runLoop at 1. cbn [readLoop].
  rewrite (connRead_open conn 2 tb (lb ++ payload ++ rest) w Ho) by lia.
  rewrite (connRead_open conn 4 lb (payload ++ rest) w Ho) by lia.
  rewrite (to_int_small _ (header_length_range lb Hl)).
  destruct (Z.gtb_spec (be_uint lb) maximumPacketSize); [lia|].
  destruct (Z.ltb_spec (be_uint lb) 0); [lia|].
  rewrite (connRead_open conn (be_uint lb) payload rest w Ho) by lia.
  rewrite runLoop_eq; [reflexivity|].
  rewrite !length_app. lia.
Qed.

(** C1 (as amended).  On a connection that is still open, a header whose
    length field exceeds [maximumPacketSize] ends the loop at once: the
    bytes after the header stay unread, no handler runs, and the deferred
    [close] runs with a Disconnect event tagged Error, which is delivered
    exactly once when the client still holds a connection and a listener is
    configured (to nobody when no listener is configured).  A header whose
    length is at most [maximumPacketSize], followed by that many bytes, is
    read and dispatched, and the loop goes on with the bytes behind the
    payload. *)
Theorem readRoutine_packet_size (handlers : gmap Z Handler) (conn : Conn)
    (tb lb : list byte) (w : World) :
  isClosed conn w = false ->
  length tb = 2%nat -> length lb = 4%nat ->
  (maximumPacketSize < be_uint lb ->
   forall rest : list byte,
     runLoop handlers conn (tb ++ lb ++ rest) w = (ExitReturn, rest, w) /\
     (connection (client w) = Some conn ->
        readRoutine handlers (tb ++ lb ++ rest) w =
          ((ExitReturn, rest), snd (close {| ev_Type := DisconnectError |} w)) /\
        client (snd (readRoutine handlers (tb ++ lb ++ rest) w)) =
          closedClient (client w) /\
        disconnectEvents (trace (snd (readRoutine handlers (tb ++ lb ++ rest) w))) =
          disconnectEvents (trace w) ++
          notified (config (client w)) {| ev_Type := DisconnectError |})) /\
  (be_uint lb <= maximumPacketSize ->
   forall payload rest : list byte,
     Z.of_nat (length payload) = be_uint lb ->
     runLoop handlers conn (tb ++ lb ++ payload ++ rest) w =
       runLoop handlers conn rest (dispatch handlers (be_uint tb) payload w) /\
     (connection (client w) = Some conn ->
        readRoutine handlers (tb ++ lb ++ payload ++ rest) w =
          deferredClose
            (runLoop handlers conn rest (dispatch handlers (be_uint tb) payload w)))).
Proof.
  intros Ho Ht Hl. split.
  - intros Hbig rest.
    pose proof (runLoop_oversize handlers conn tb lb rest w Ho Ht Hl Hbig) as Hrun.
    split; [exact Hrun|]. intros Hk.
    assert (Hr : readRoutine handlers (tb ++ lb ++ rest) w =
                 ((ExitReturn, rest), snd (close {| ev_Type := DisconnectError |} w))).
    { unfold readRoutine. rewrite Hk, Hrun. reflexivity. }
    rewrite Hr. cbn [snd]. split; [reflexivity|].
    rewrite (close_conn _ w conn Hk). cbn [snd client trace].
    split; [reflexivity|].
    rewrite !disconnectEvents_app. unfold notified.
    destruct (CfgListener (config (client w))); cbn; rewrite ?app_nil_r; reflexivity.
  - intros Hsmall payload rest Hp.
    pose proof (runLoop_packet handlers conn tb lb payload rest w Ho Ht Hl Hp Hsmall)
      as Hrun.
    split; [exact Hrun|]. intros Hk.
    unfold readRoutine. rewrite Hk, Hrun. reflexivity.
Qed.

Lemma readRoutine_packet_size_witness :
  isClosed 7%nat (liveWorld (Some 3%nat)) = false /\
  readRoutine sampleHandlers oversizeInput (liveWorld (Some 3%nat)) =
    ((ExitReturn, [x01; x02]),
     snd (close {| ev_Type := DisconnectError |} (liveWorld (Some 3%nat)))).
Proof.
  split; [reflexivity|].
  destruct (readRoutine_packet_size sampleHandlers 7%nat [x00; x05]
              [x00; xb0; x00; x00] (liveWorld (Some 3%nat))
              eq_refl eq_refl eq_refl) as [Hbig _].
  destruct (Hbig ltac:(vm_compute; reflexivity) [x01; x02]) as [_ Hr].
  exact (proj1 (Hr eq_refl)).
Defined.

(** C1, as first stated, fails: with no listener configured, an oversize
    header ends the read goroutine and closes the client, yet no Disconnect
    event is delivered. *)
Lemma oversize_without_listener_counterexample :
  be_uint [x00; xb0; x00; x00] = 11 * 1024 * 1024 /\
  fst (readRoutine sampleHandlers oversizeInput (liveWorld None)) =
    (ExitReturn, [x01; x02]) /\
  state (client (snd (readRoutine sampleHandlers oversizeInput (liveWorld None)))) =
    StateDisconnected /\
  disconnectEvents
    (trace (snd (readRoutine sampleHandlers oversizeInput (liveWorld None)))) = [] /\
  length (disconnectEvents
            (trace (snd (readRoutine sampleHandlers oversizeInput (liveWorld None)))))
    <> 1%nat.
Proof. vm_compute. repeat split; discriminate. Qed.

(** C7.  A complete packet whose type has no entry in [handlers] is
    dropped.  One turn of the loop reads its six header bytes and its
    payload and calls no handler, so the world (client, channel objects,
    trace) is as before, and the loop goes on to the next header in the
    bytes behind the payload: if the stream ends there, the loop returns
    with everything consumed and the world untouched; if an oversize
    header follows, the loop stops on it and leaves unread exactly the
    bytes behind that header; if a complete packet follows, it is that
    packet's payload that goes to the handler of that packet's type.  In
    every case the run is the run on the bytes behind the dropped
    packet. *)
Theorem unknown_type_dropped (handlers : gmap Z Handler) (conn : Conn)
    (tb lb payload rest : list byte) (w : World) :
  handlers !! be_uint tb = None ->
  length tb = 2%nat -> length lb = 4%nat ->
  Z.of_nat (length payload) = be_uint lb ->
  be_uint lb <= maximumPacketSize ->
  dispatch handlers (be_uint tb) payload w = w /\
  ((length rest < 6)%nat ->
   runLoop handlers conn (tb ++ lb ++ payload ++ rest) w = (ExitReturn, [], w)) /\
  (forall tb2 lb2 rest' : list byte,
     rest = tb2 ++ lb2 ++ rest' ->
     length tb2 = 2%nat -> length lb2 = 4%nat ->
     maximumPacketSize < be_uint lb2 ->
     runLoop handlers conn (tb ++ lb ++ payload ++ rest) w = (ExitReturn, rest', w)) /\
  (forall tb2 lb2 payload2 tail : list byte,
     rest = tb2 ++ lb2 ++ payload2 ++ tail ->
     length tb2 = 2%nat -> length lb2 = 4%nat ->
     Z.of_nat (length payload2) = be_uint lb2 ->
     be_uint lb2 <= maximumPacketSize ->
     (length tail < 6)%nat ->
     runLoop handlers conn (tb ++ lb ++ payload ++ rest) w =
       (ExitReturn, [], dispatch handlers (be_uint tb2) payload2 w)) /\
  runLoop handlers conn (tb ++ lb ++ payload ++ rest) w =
    runLoop handlers conn rest w /\
  (connection (client w) = Some conn ->
     readRoutine handlers (tb ++ lb ++ payload ++ rest) w =
       readRoutine handlers rest w).
Proof.
  intros Hnone Ht Hl Hp Hsmall.
  assert (Hd : dispatch handlers (be_uint tb) payload w = w).
  { unfold dispatch. rewrite Hnone. reflexivity. }
  pose proof (runLoop_packet_turn handlers conn tb lb payload rest w Ht Hl Hp Hsmall)
    as Hrun.
  rewrite Hd in Hrun. rewrite Hrun.
  split; [exact Hd|]. split; [|split; [|split; [|split]]].
  - intros Hshort. by apply runLoop_eof.
  - intros tb2 lb2 rest' -> Ht2 Hl2 Hbig. by apply runLoop_oversize_turn.
  - intros tb2 lb2 payload2 tail -> Ht2 Hl2 Hp2 Hsmall2 Htail.
    rewrite (runLoop_packet_turn handlers conn tb2 lb2 payload2 tail w Ht2 Hl2 Hp2 Hsmall2).
    by apply runLoop_eof.
  - reflexivity.
  - intros Hk. unfold readRoutine. rewrite Hk, Hrun. reflexivity.
Qed.

Lemma unknown_type_dropped_witness :
  sampleHandlers !! be_uint [x00; x63] = None /\
  runLoop sampleHandlers 7%nat
    ([x00; x63] ++ [x00; x00; x00; x02] ++ [xaa; xbb] ++
     [x00; x05; x00; xb0; x00; x00; x01; x02])
    (liveWorld None) = (ExitReturn, [x01; x02], liveWorld None) /\
  runLoop sampleHandlers 7%nat
    ([x00; x63] ++ [x00; x00; x00; x02] ++ [xaa; xbb] ++
     [x00; x05; x00; x00; x00; x01; xcc; x00])
    (liveWorld None) =
    (ExitReturn, [], snd (assign FState (set_state StateSynced) (liveWorld None))) /\
  readRoutine sampleHandlers unknownInput (liveWorld None) =
    readRoutine sampleHandlers [x00] (liveWorld None).
Proof.
  split; [reflexivity|].
  assert (Hsmall : be_uint [x00; x00; x00; x02] <= maximumPacketSize)
    by (vm_compute; discriminate).
  split; [|split].
  - destruct (unknown_type_dropped sampleHandlers 7%nat [x00; x63] [x00; x00; x00; x02]
                [xaa; xbb] [x00; x05; x00; xb0; x00; x00; x01; x02] (liveWorld None)
                eq_refl eq_refl eq_refl eq_refl Hsmall) as [_ [_ [Hover _]]].
    apply (Hover [x00; x05] [x00; xb0; x00; x00] [x01; x02]); try reflexivity.
  - destruct (unknown_type_dropped sampleHandlers 7%nat [x00; x63] [x00; x00; x00; x02]
                [xaa; xbb] [x00; x05; x00; x00; x00; x01; xcc; x00] (liveWorld None)
                eq_refl eq_refl eq_refl eq_refl Hsmall) as [_ [_ [_ [Hnext _]]]].
    apply (Hnext [x00; x05] [x00; x00; x00; x01] [xcc] [x00]); try reflexivity.
    + vm_compute. discriminate.
    + cbn. lia.
  - apply (unknown_type_dropped sampleHandlers 7%nat [x00; x63] [x00; x00; x00; x02]
             [xaa; xbb] [x00] (liveWorld None) eq_refl eq_refl eq_refl eq_refl Hsmall).
    reflexivity.
Defined.

(** * Further properties *)

(** ** Channel.Find along paths *)

Lemma deref_Some_ptr (h : gmap nat Channel) (p : ChannelPtr) (ch : Channel) :
  deref h p = Some ch -> exists a, p = Some a /\ h !! a = Some ch.
Proof. destruct p as [a|]; [eauto | discriminate]. Qed.

Lemma named_true (h : gmap nat Channel) (first : string) (p : ChannelPtr) :
  named h first p = true <-> exists chd, deref h p = Some chd /\ name chd = first.
Proof.
  unfold named. split.
  - destruct (deref h p) as [chd|]; [|discriminate].
    intros H. exists chd. split; [reflexivity | by apply String.eqb_eq].
  - intros [chd [-> H]]. by apply String.eqb_eq.
Qed.

Lemma named_dec_split (h : gmap nat Channel) (first : string) (kids : list ChannelPtr) :
  (exists pre x post,
     kids = pre ++ x :: post /\ named h first x = true /\
     forall p, p ∈ pre -> named h first p = false) \/
  (forall p, p ∈ kids -> named h first p = false).
Proof.
  destruct (existsb (named h first) kids) eqn:E.
  - left. apply first_hit. apply existsb_exists in E as [x [Hin Hx]].
    exists x. split; [by apply list_elem_of_In | exact Hx].
  - right. intros p Hp. apply list_elem_of_In in Hp.
    destruct (named h first p) eqn:Hn; [|reflexivity].
    assert (existsb (named h first) kids = true) by (apply existsb_exists; eauto).
    congruence.
Qed.

Lemma Channel_Find_live_children (h : gmap nat Channel) (c : ChannelPtr)
    (ch : Channel) (first : string) (rest : list string) :
  deref h c = Some ch ->
  Forall (fun p => is_Some (deref h p)) (default [] (children ch)) ->
  (exists x, x ∈ default [] (children ch) /\ named h first x = true /\
             Channel_Find h (first :: rest) c = Channel_Find h rest x) \/
  ((forall p, p ∈ default [] (children ch) -> named h first p = false) /\
   Channel_Find h (first :: rest) c = Returned None).
Proof.
  intros Hc Hlive. rewrite Forall_forall in Hlive.
  destruct (named_dec_split h first (default [] (children ch)))
    as [[pre [x [post [Hsplit [Hx Hpre]]]]]|Hnone].
  - left. exists x. split; [rewrite Hsplit; apply elem_of_app; right; apply list_elem_of_here|].
    split; [exact Hx|].
    apply (Channel_Find_hit h c ch first rest pre post x Hc Hsplit); [|exact Hx].
    intros p Hp. split; [|by apply Hpre].
    apply Hlive. rewrite Hsplit. apply elem_of_app. by left.
  - right. split; [exact Hnone|].
    apply (Channel_Find_miss h c ch first rest Hc).
    intros p Hp. split; [by apply Hlive | by apply Hnone].
Qed.

(** X1.  On a heap whose child pointers are all live, [Find] called on a live
    channel never panics, and what it returns is nil or a live channel. *)
Theorem Channel_Find_no_panic (h : gmap nat Channel) (names : list string) :
  childrenLive h ->
  forall c : ChannelPtr,
    is_Some (deref h c) ->
    exists r : ChannelPtr,
      Channel_Find h names c = Returned r /\ (r = None \/ is_Some (deref h r)).
Proof.
  intros Hlive. induction names as [|first rest IH]; intros c [ch Hc].
  - exists c. split; [reflexivity|]. right. eauto.
  - destruct (deref_Some_ptr h c ch Hc) as [a [-> Ha]].
    pose proof (Hlive a ch Ha) as Hkids.
    destruct (Channel_Find_live_children h (Some a) ch first rest Hc Hkids)
      as [[x [Hin [Hx ->]]]|[_ ->]].
    + apply IH. apply named_true in Hx as [chd [Hd _]]. eauto.
    + exists None. split; [reflexivity | by left].
Qed.

Lemma descends_last (h : gmap nat Channel) (c k : ChannelPtr) (names : list string) :
  descends h c names k ->
  forall n, last names = Some n ->
  exists chd, deref h k = Some chd /\ name chd = n.
Proof.
  induction 1 as [c|c child k ch chd first rest Hc Hin Hd Hn Hdesc IH]; intros n Hl.
  - discriminate.
  - destruct rest as [|second rest'].
    + inversion Hdesc; subst. cbn in Hl. injection Hl as <-. eauto.
    + apply IH. exact Hl.
Qed.

(** X2.  A non-nil result of [Find] is reached from the receiver by following
    children whose names spell the path; with a non-empty path its name is
    the last element of the path. *)
Theorem Channel_Find_sound (h : gmap nat Channel) (names : list string)
    (c : ChannelPtr) (k : nat) :
  Channel_Find h names c = Returned (Some k) ->
  descends h c names (Some k) /\
  (forall n, last names = Some n ->
     exists chd, h !! k = Some chd /\ name chd = n).
Proof.
  intros H.
  assert (Hd : descends h c names (Some k)).
  { revert c H. induction names as [|first rest IH]; intros c H.
    - cbn in H. injection H as ->. constructor.
    - cbn [Channel_Find] in H.
      destruct (deref h c) as [ch|] eqn:Hc; [|discriminate].
      remember (default [] (children ch)) as kids eqn:Hk.
      assert (Hsub : forall p, p ∈ kids -> p ∈ default [] (children ch))
        by (subst; auto).
      clear Hk. induction kids as [|x kids IHk]; [discriminate|].
      cbn [rangeLoop] in H.
      destruct (deref h x) as [chd|] eqn:Hx; [|discriminate].
      destruct (String.eqb (name chd) first) eqn:En.
      + destruct (Channel_Find h rest x) as [r|] eqn:Hf; [|discriminate].
        injection H as ->.
        apply (descends_cons h c x (Some k) ch chd first rest Hc); auto.
        * apply Hsub, list_elem_of_here.
        * by apply String.eqb_eq.
      + apply IHk; [exact H|].
        intros p Hp. apply Hsub. by apply list_elem_of_further. }
  split; [exact Hd|]. intros n Hl.
  exact (descends_last h c (Some k) names Hd n Hl).
Qed.

(** X3.  When child pointers are live and no channel has two children of the
    same name, [Find] returns the channel a path leads to. *)
Theorem Channel_Find_complete (h : gmap nat Channel) (c k : ChannelPtr)
    (names : list string) :
  childrenLive h ->
  siblingsDistinct h ->
  descends h c names k ->
  Channel_Find h names c = Returned k.
Proof.
  intros Hlive Hdist Hdesc.
  induction Hdesc as [c|c child k ch chd first rest Hc Hin Hd Hn Hdesc IH].
  - reflexivity.
  - destruct (deref_Some_ptr h c ch Hc) as [a [-> Ha]].
    destruct (Channel_Find_live_children h (Some a) ch first rest Hc (Hlive a ch Ha))
      as [[x [Hx [Hnx ->]]]|[Hnone _]].
    + apply named_true in Hnx as [cx [Hdx Hcx]].
      assert (x = child) as ->.
      { apply (Hdist a ch x child cx chd Ha Hx Hin Hdx Hd). congruence. }
      exact IH.
    + specialize (Hnone child Hin).
      assert (named h first child = true) by (apply named_true; eauto).
      congruence.
Qed.

Lemma sampleChannels_live : childrenLive sampleChannels.
Proof.
  intros a ch Ha.
  refine (map_Forall_lookup_1
            (fun (_ : nat) c =>
               Forall (fun p => is_Some (deref sampleChannels p))
                 (default [] (children c)))
            sampleChannels a ch _ Ha).
  apply (bool_decide_unpack _). vm_compute. reflexivity.
Qed.

Lemma sampleChannels_distinct : siblingsDistinct sampleChannels.
Proof.
  assert (H : map_Forall
            (fun (_ : nat) ch =>
               Forall (fun p =>
                 Forall (fun q =>
                   name <$> deref sampleChannels p = name <$> deref sampleChannels q ->
                   is_Some (deref sampleChannels p) -> p = q)
                   (default [] (children ch)))
                 (default [] (children ch)))
            sampleChannels).
  { apply (bool_decide_unpack _). vm_compute. reflexivity. }
  intros a ch p q cp cq Ha Hp Hq Hcp Hcq Hn.
  pose proof (map_Forall_lookup_1 _ _ _ _ H Ha) as Hf. cbn beta in Hf.
  rewrite Forall_forall in Hf. specialize (Hf p Hp).
  rewrite Forall_forall in Hf. apply (Hf q Hq).
  - rewrite Hcp, Hcq. cbn. by rewrite Hn.
  - eauto.
Qed.

Lemma Channel_Find_no_panic_witness :
  childrenLive sampleChannels /\
  is_Some (deref sampleChannels (Some 0%nat)) /\
  exists r : ChannelPtr,
    Channel_Find sampleChannels ["Lobby"; "Attic"] (Some 0%nat) = Returned r /\
    (r = None \/ is_Some (deref sampleChannels r)).
Proof.
  split; [exact sampleChannels_live|].
  assert (Hroot : is_Some (deref sampleChannels (Some 0%nat)))
    by (eexists; reflexivity).
  split; [exact Hroot|].
  exact (Channel_Find_no_panic sampleChannels ["Lobby"; "Attic"]
           sampleChannels_live (Some 0%nat) Hroot).
Defined.

Lemma Channel_Find_sound_witness :
  Channel_Find sampleChannels ["Lobby"; "Quiet"] (Some 0%nat) = Returned (Some 3%nat) /\
  descends sampleChannels (Some 0%nat) ["Lobby"; "Quiet"] (Some 3%nat).
Proof.
  split; [reflexivity|].
  apply (Channel_Find_sound sampleChannels ["Lobby"; "Quiet"] (Some 0%nat) 3%nat).
  reflexivity.
Defined.

Lemma Channel_Find_complete_witness :
  descends sampleChannels (Some 0%nat) ["Lobby"; "Quiet"] (Some 3%nat) /\
  Channel_Find sampleChannels ["Lobby"; "Quiet"] (Some 0%nat) = Returned (Some 3%nat).
Proof.
  assert (Hd : descends sampleChannels (Some 0%nat) ["Lobby"; "Quiet"] (Some 3%nat)).
  { eapply (descends_cons _ _ (Some 1%nat)); [reflexivity | | reflexivity | reflexivity |].
    - cbn. apply list_elem_of_here.
    - eapply (descends_cons _ _ (Some 3%nat)); [reflexivity | | reflexivity | reflexivity |].
      + cbn. apply list_elem_of_here.
      + constructor. }
  split; [exact Hd|].
  exact (Channel_Find_complete sampleChannels _ _ _ sampleChannels_live
           sampleChannels_distinct Hd).
Defined.

Lemma Channel_Find_app_eq (h : gmap nat Channel) (names1 names2 : list string) :
  forall c : ChannelPtr,
    names1 <> [] \/ c <> None ->
    Channel_Find h (names1 ++ names2) c =
      match Channel_Find h names1 c with
      | Returned (Some k) => Channel_Find h names2 (Some k)
      | Returned None => Returned None
      | Panicked => Panicked
      end.
Proof.
  induction names1 as [|first rest IH]; intros c Hc.
  - destruct c as [k|]; [reflexivity|]. destruct Hc; congruence.
  - cbn [Channel_Find app].
    destruct (deref h c) as [ch|]; [|reflexivity].
    induction (default [] (children ch)) as [|x kids IHk]; [reflexivity|].
    cbn [rangeLoop].
    destruct (deref h x) as [chd|] eqn:Hx; [|reflexivity].
    destruct (String.eqb (name chd) first); [|exact IHk].
    rewrite IH by (right; intros ->; discriminate).
    destruct (Channel_Find h rest x) as [[k|]|]; try reflexivity.
    destruct (Channel_Find h names2 (Some k)); reflexivity.
Qed.

(** X4.  [Find] along a concatenated path is [Find] along the first part
    followed by [Find] along the second from the channel found; if the
    first part (not empty) leads nowhere the result is nil, and a panic in
    the first part is a panic of the whole. *)
Theorem Channel_Find_app (h : gmap nat Channel) (names1 names2 : list string)
    (c : ChannelPtr) :
  (forall k : nat,
     Channel_Find h names1 c = Returned (Some k) ->
     Channel_Find h (names1 ++ names2) c = Channel_Find h names2 (Some k)) /\
  (names1 <> [] ->
   Channel_Find h names1 c = Returned None ->
   Channel_Find h (names1 ++ names2) c = Returned None) /\
  (Channel_Find h names1 c = Panicked ->
   Channel_Find h (names1 ++ names2) c = Panicked).
Proof.
  split; [|split].
  - intros k H. rewrite Channel_Find_app_eq, H; [reflexivity|].
    destruct names1; [right | left; discriminate].
    cbn in H. injection H as ->. discriminate.
  - intros Hne H. rewrite Channel_Find_app_eq, H; [reflexivity | by left].
  - intros H. rewrite Channel_Find_app_eq, H; [reflexivity|].
    destruct names1; [discriminate H | left; discriminate].
Qed.

(** ** Sequences of calls *)

Lemma countActs_app (p : Action -> bool) (t1 t2 : list Action) :
  countActs p (t1 ++ t2) = (countActs p t1 + countActs p t2)%nat.
Proof. unfold countActs. rewrite List.filter_app, length_app. reflexivity. Qed.

Lemma benign_counts (d : list Action) :
  forallb benign d = true ->
  countActs (isGo ReadRoutine) d = 0%nat /\
  countActs isConnClose d = 0%nat /\
  disconnectEvents d = [].
Proof.
  induction d as [|a d IH]; [repeat split|].
  cbn [forallb]. intros H. apply andb_true_iff in H as [Ha Hd].
  destruct (IH Hd) as [H1 [H2 H3]].
  unfold countActs, disconnectEvents in *.
  destruct a; try discriminate Ha; cbn; auto.
Qed.

Lemma Send_effect (m : Message) (w : World) :
  exists d,
    snd (Send m w) = mkWorld (client w) (channelObjs w) (closedConns w) (trace w ++ d) /\
    forallb benign d = true.
Proof.
  destruct (connection (client w)) as [k|] eqn:E.
  - exists [ActWrite k m]. rewrite (Send_conn m w k E). split; reflexivity.
  - exists []. rewrite (Send_nil m w E). destruct w. cbn. rewrite app_nil_r.
    split; reflexivity.
Qed.

Lemma bind_skip {A B : Type} (m1 : M A) (m2 : M B) (w : World) :
  (m1;; m2) w = m2 (snd (m1 w)).
Proof. unfold mbind, M_bind. destruct (m1 w). reflexivity. Qed.

Lemma Send_then (m : Message) (w : World) :
  (_ ← Send m; ret tt) w = (tt, snd (Send m w)).
Proof.
  unfold mbind at 1, M_bind. destruct (Send m w). reflexivity.
Qed.

Lemma Request_effect (r : Z) (w : World) :
  exists d,
    snd (Request r w) = mkWorld (client w) (channelObjs w) (closedConns w) (trace w ++ d) /\
    forallb benign d = true.
Proof.
  assert (Hopt : forall (b : bool) (m : Message) (w0 : World),
            exists d,
              snd ((if b then _ ← Send m; ret tt else ret tt) w0) =
                mkWorld (client w0) (channelObjs w0) (closedConns w0) (trace w0 ++ d) /\
              forallb benign d = true).
  { intros [|] m w0.
    - rewrite Send_then. cbn [snd]. apply Send_effect.
    - exists []. destruct w0. cbn. rewrite app_nil_r. split; reflexivity. }
  unfold Request. rewrite bind_skip.
  destruct (Hopt (negb (Z.land r RequestUserList =? 0)) (protoMessage PUserList) w)
    as [d1 [H1 B1]].
  rewrite H1.
  destruct (Hopt (negb (Z.land r RequestBanList =? 0)) (protoMessage (PBanList true))
              (mkWorld (client w) (channelObjs w) (closedConns w) (trace w ++ d1)))
    as [d2 [H2 B2]].
  exists (d1 ++ d2). rewrite H2. cbn [client channelObjs closedConns trace].
  rewrite app_assoc. split; [reflexivity|].
  rewrite forallb_app, B1, B2. reflexivity.
Qed.

Lemma channel_method_effect (p : ChannelPtr) (mk : Channel -> ProtoMessage) (w : World) :
  exists d,
    snd ((o ← getChannel p;
          match o with
          | None => ret Panicked
          | Some ch => Send (protoMessage (mk ch));; ret (Returned tt)
          end) w) =
      mkWorld (client w) (channelObjs w) (closedConns w) (trace w ++ d) /\
    forallb benign d = true.
Proof.
  unfold getChannel, mbind at 1, M_bind.
  destruct (deref (channelObjs w) p) as [ch|].
  - unfold mbind, M_bind.
    destruct (Send_effect (protoMessage (mk ch)) w) as [d [Hd Bd]].
    destruct (Send (protoMessage (mk ch)) w) as [e w1]. cbn [snd] in Hd. subst w1.
    exists d. split; [reflexivity | exact Bd].
  - exists []. destruct w. cbn. rewrite app_nil_r. split; reflexivity.
Qed.

(** A call other than [Connect] and [close] only appends writes and
    assignments to the trace, and changes no field but [audioTarget]. *)
Lemma benign_step (w : World) (o : Op) :
  (forall env, o <> OpConnect env) ->
  (forall t, o <> OpClose t) ->
  exists d,
    trace (step w o) = trace w ++ d /\
    forallb benign d = true /\
    channelObjs (step w o) = channelObjs w /\
    closedConns (step w o) = closedConns w /\
    set_audioTarget (audioTarget (client w)) (client (step w o)) = client w.
Proof.
  intros Hc Hd.
  assert (Hid : set_audioTarget (audioTarget (client w)) (client w) = client w).
  { destruct w as [cl ? ? ?]. destruct cl. reflexivity. }
  assert (Hgen : forall w',
            (exists d, w' = mkWorld (client w) (channelObjs w) (closedConns w)
                              (trace w ++ d) /\ forallb benign d = true) ->
            exists d, trace w' = trace w ++ d /\ forallb benign d = true /\
              channelObjs w' = channelObjs w /\ closedConns w' = closedConns w /\
              set_audioTarget (audioTarget (client w)) (client w') = client w).
  { intros w' [d [-> B]]. exists d. repeat split; [exact B | exact Hid]. }
  destruct o as [env|t|m|r|tg|c n t|c|c n|c ds]; cbn [step].
  - by destruct (Hc env).
  - by destruct (Hd t).
  - apply Hgen, Send_effect.
  - apply Hgen, Request_effect.
  - exists [ActAssign FAudioTarget]. unfold SetVoiceTarget, assign. cbn.
    repeat split. destruct w as [cl ? ? ?]. destruct cl. reflexivity.
  - apply Hgen.
    apply (channel_method_effect c
             (fun ch => PChannelState (mkChannelStateMsg None (Some (id ch)) (Some n)
                                         None (Some t)))).
  - apply Hgen. apply (channel_method_effect c (fun ch => PChannelRemove (id ch))).
  - apply Hgen.
    apply (channel_method_effect c
             (fun ch => PChannelState (mkChannelStateMsg (Some (id ch)) None (Some n)
                                         None None))).
  - apply Hgen.
    apply (channel_method_effect c
             (fun ch => PChannelState (mkChannelStateMsg (Some (id ch)) None None
                                         (Some ds) None))).
Qed.

Lemma shape_audioTarget (t : VoiceTargetPtr) (c c' : Client) :
  set_audioTarget t c' = c ->
  (atRest c \/ inSession c) ->
  (atRest c' \/ inSession c') /\ config c' = config c /\ self c' = self c /\
  connection c' = connection c.
Proof.
  intros <- H. unfold atRest, inSession in *. cbn in H.
  repeat split; try reflexivity. exact H.
Qed.

Lemma atRest_not_inSession (c : Client) : atRest c -> inSession c -> False.
Proof. intros [H _] [H' _]. congruence. Qed.

Ltac frame_with shape :=
  split; [shape|];
  split; [reflexivity || assumption|];
  split; [intros; (reflexivity || assumption || congruence)|];
  split; [reflexivity || assumption|].

(** What one call does to the shape of the client and to the counts. *)
Lemma step_accounting (w : World) (o : Op) :
  (atRest (client w) \/ inSession (client w)) ->
  (atRest (client (step w o)) \/ inSession (client (step w o))) /\
  config (client (step w o)) = config (client w) /\
  (self (client w) = None -> self (client (step w o)) = None) /\
  channelObjs (step w o) = channelObjs w /\
  exists d,
    trace (step w o) = trace w ++ d /\
    (countActs (isGo ReadRoutine) d + liveSessions (client w) =
       countActs isConnClose d + liveSessions (client (step w o)))%nat /\
    disconnectEvents d =
      match CfgListener (config (client w)) with
      | Some l => List.map (fun a => (l, a))
                    (omap (fun a => match a with
                                    | ActOnDisconnect _ e => Some e
                                    | _ => None
                                    end) d)
      | None => []
      end /\
    length (disconnectEvents d) =
      match CfgListener (config (client w)) with
      | Some _ => countActs isConnClose d
      | None => 0%nat
      end.
Proof.
  intros Hshape.
  destruct o as [env|t|m|r|tg|c n t|c|c n|c ds].
  1: { (* Connect *)
    cbn [step].
    destruct Hshape as [Hrest|Hsess].
    - destruct Hrest as [Hs [Hk [Ha [Hu [Hc Hx]]]]].
      destruct (Connect_cases env w Hs) as [[e He]|[[e [He Hd]]|[conn [He Hd]]]].
      + rewrite (Connect_encoder_fails env w e Hs He). cbn [snd client channelObjs trace].
        frame_with ltac:(left; repeat split; assumption).
        eexists. split; [reflexivity|]. unfold liveSessions. rewrite Hk.
        destruct (CfgListener (config (client w))); repeat split.
      + rewrite (Connect_dial_fails env w e Hs He Hd). cbn [snd client channelObjs trace].
        frame_with ltac:(left; repeat split; assumption).
        eexists. split; [reflexivity|]. unfold liveSessions. cbn [connection set_audioEncoder set_audioTarget set_audioSequence].
        rewrite Hk. destruct (CfgListener (config (client w))); repeat split.
      + rewrite (Connect_succeeds env w conn Hs He Hd). cbn [snd client channelObjs trace].
        frame_with ltac:(right; repeat split; eauto).
        eexists. split; [reflexivity|]. unfold liveSessions.
        cbn [connection connectedClient]. rewrite Hk.
        destruct (CfgListener (config (client w))); repeat split.
    - assert (Hne : state (client w) <> StateDisconnected).
      { destruct Hsess as [Hs _]. congruence. }
      rewrite (Connect_wrong_state env w Hne). cbn [snd].
      frame_with ltac:(by right).
      exists []. rewrite app_nil_r.
      destruct (CfgListener (config (client w))); repeat split; cbn; lia. }
  1: { (* close *)
    cbn [step].
    destruct (connection (client w)) as [k|] eqn:Hk.
    - rewrite (close_conn _ w k Hk). cbn [snd client channelObjs trace].
      frame_with ltac:(left; repeat split).
      eexists. split; [reflexivity|]. unfold liveSessions. rewrite Hk.
      destruct (CfgListener (config (client w))); repeat split.
    - rewrite (close_nil _ w Hk). cbn [snd].
      frame_with ltac:(exact Hshape).
      exists []. rewrite app_nil_r.
      destruct (CfgListener (config (client w))); repeat split; cbn; lia. }
  all: match goal with
       | |- context [step ?w0 ?o] =>
           destruct (benign_step w0 o) as [d [Ht [Hb [Hh [_ Hcl]]]]];
             [intros ?; discriminate | intros ?; discriminate |]
       end.
  all: destruct (shape_audioTarget _ _ _ Hcl Hshape) as [Hsh [Hcfg [Hself Hconn]]].
  all: destruct (benign_counts d Hb) as [Hgo [Hclose Hev]].
  all: frame_with ltac:(exact Hsh).
  all: exists d; split; [exact Ht|].
  all: rewrite Hgo, Hclose, Hev; unfold liveSessions; rewrite Hconn.
  all: assert (Hom : omap (fun a => match a with
                                    | ActOnDisconnect _ e => Some e
                                    | _ => None
                                    end) d = []).
  all: try (clear - Hb; induction d as [|a d IH]; [reflexivity|];
            cbn [forallb] in Hb; apply andb_true_iff in Hb as [Ha Hd];
            destruct a; try discriminate Ha; cbn; auto).
  all: rewrite Hom; destruct (CfgListener (config (client w))); repeat split.
Qed.

Lemma runOps_accounting (ops : list Op) :
  forall w : World,
    (atRest (client w) \/ inSession (client w)) ->
    (atRest (client (runOps ops w)) \/ inSession (client (runOps ops w))) /\
    config (client (runOps ops w)) = config (client w) /\
    (self (client w) = None -> self (client (runOps ops w)) = None) /\
    channelObjs (runOps ops w) = channelObjs w /\
    exists d,
      trace (runOps ops w) = trace w ++ d /\
      (countActs (isGo ReadRoutine) d + liveSessions (client w) =
         countActs isConnClose d + liveSessions (client (runOps ops w)))%nat /\
      Forall (fun le => CfgListener (config (client w)) = Some (fst le))
        (disconnectEvents d) /\
      length (disconnectEvents d) =
        match CfgListener (config (client w)) with
        | Some _ => countActs isConnClose d
        | None => 0%nat
        end.
Proof.
  induction ops as [|o ops IH]; intros w Hshape.
  - cbn. repeat split; try assumption.
    + by intros.
    + exists []. rewrite app_nil_r.
      destruct (CfgListener (config (client w))); repeat split; constructor.
  - change (runOps (o :: ops) w) with (runOps ops (step w o)).
    destruct (step_accounting w o Hshape)
      as [Hsh1 [Hcfg1 [Hself1 [Hh1 [d1 [Ht1 [Hn1 [He1 Hl1]]]]]]]].
    destruct (IH (step w o) Hsh1)
      as [Hsh2 [Hcfg2 [Hself2 [Hh2 [d2 [Ht2 [Hn2 [He2 Hl2]]]]]]]].
    rewrite Hcfg1 in *.
    split; [exact Hsh2|]. split; [congruence|]. split; [auto|].
    split; [congruence|].
    exists (d1 ++ d2). rewrite Ht2, Ht1, <- app_assoc.
    split; [reflexivity|].
    rewrite !countActs_app, disconnectEvents_app, length_app, Hl1, Hl2.
    split; [lia|]. split.
    + apply Forall_app. split; [|exact He2].
      rewrite He1. destruct (CfgListener (config (client w))); [|constructor].
      apply Forall_forall. intros le Hin.
      apply list_elem_of_In, in_map_iff in Hin as [e [<- _]]. reflexivity.
    + destruct (CfgListener (config (client w))); lia.
Qed.

Lemma newWorld_atRest (cfg : Config) (h : gmap nat Channel) :
  atRest (client (newWorld cfg h)).
Proof. repeat split. Qed.

(** X5.  Whatever calls are made on a new client ([Connect], [close] with any
    event, [Send], [Request], [SetVoiceTarget] and the channel requests), it
    is afterwards either at rest (Disconnected; connection, encoder and the
    three collections nil) or in a session (Connected; connection, encoder
    and end channel set); its config and the channel objects are as at the
    start, and [Conn] returns the connection field, which is nil exactly in
    state Disconnected. *)
Theorem runOps_shape (cfg : Config) (h : gmap nat Channel) (ops : list Op) :
  (atRest (client (runOps ops (newWorld cfg h))) \/
   inSession (client (runOps ops (newWorld cfg h)))) /\
  config (client (runOps ops (newWorld cfg h))) = cfg /\
  self (client (runOps ops (newWorld cfg h))) = None /\
  channelObjs (runOps ops (newWorld cfg h)) = h /\
  Client_Conn (client (runOps ops (newWorld cfg h))) =
    connection (client (runOps ops (newWorld cfg h))) /\
  (state (client (runOps ops (newWorld cfg h))) = StateDisconnected <->
   connection (client (runOps ops (newWorld cfg h))) = None).
Proof.
  destruct (runOps_accounting ops (newWorld cfg h) (or_introl (newWorld_atRest cfg h)))
    as [Hsh [Hcfg [Hself [Hh _]]]].
  split; [exact Hsh|]. split; [exact Hcfg|]. split; [by apply Hself|].
  split; [exact Hh|].
  unfold Client_Conn.
  destruct Hsh as [[Hs [Hk _]]|[Hs [[k Hk] _]]]; rewrite Hs, Hk; cbn.
  - repeat split.
  - split; [reflexivity|]. split; discriminate.
Qed.

(** X6.  In the trace of any such sequence of calls, the sessions started
    (read goroutines launched) are the connections closed plus the one
    still live, if any; every Disconnect event went to the configured
    listener; and their number is that of the connections closed when a
    listener is configured, zero otherwise: one event per ended session,
    never two. *)
Theorem runOps_sessions (cfg : Config) (h : gmap nat Channel) (ops : list Op) :
  countActs (isGo ReadRoutine) (trace (runOps ops (newWorld cfg h))) =
    (countActs isConnClose (trace (runOps ops (newWorld cfg h))) +
     liveSessions (client (runOps ops (newWorld cfg h))))%nat /\
  Forall (fun le => CfgListener cfg = Some (fst le))
    (disconnectEvents (trace (runOps ops (newWorld cfg h)))) /\
  length (disconnectEvents (trace (runOps ops (newWorld cfg h)))) =
    match CfgListener cfg with
    | Some _ => countActs isConnClose (trace (runOps ops (newWorld cfg h)))
    | None => 0%nat
    end.
Proof.
  destruct (runOps_accounting ops (newWorld cfg h) (or_introl (newWorld_atRest cfg h)))
    as [_ [_ [_ [_ [d [Ht [Hn [He Hl]]]]]]]].
  rewrite Ht. cbn [newWorld trace client liveSessions clientLiteral connection config] in *.
  cbn [app]. repeat split; [lia | exact He | exact Hl].
Qed.

(** X7.  After [close] has ended a session, [Connect] is accepted again; with
    encoder and dial succeeding it starts a blank session: state Connected
    on the new connection, self nil, empty collections, audio sequence 0
    and no voice target, whatever these were in the session before. *)
Theorem Connect_after_close (env : Env) (w : World) (k conn : Conn)
    (ev : DisconnectEvent) :
  connection (client w) = Some k ->
  newEncoderError env = None ->
  dialResult env = inl conn ->
  fst (Connect env (snd (close ev w))) = None /\
  client (snd (Connect env (snd (close ev w)))) =
    {| config := config (client w);
       state := StateConnected;
       self := None;
       server_version := server_version (client w);
       connection := Some conn;
       users := Some [];
       channels := Some [];
       contextActions := Some [];
       audioEncoder := Some (mkEncoder AudioSampleRate 1 Voip false);
       audioSequence := 0;
       audioTarget := None;
       end_ := Some (newChan env) |}.
Proof.
  intros Hk He Hd. rewrite (close_conn ev w k Hk). cbn [snd].
  rewrite (Connect_succeeds env _ conn); [split; reflexivity | reflexivity | exact He | exact Hd].
Qed.

Lemma Connect_after_close_witness :
  connection (client (liveWorld None)) = Some 7%nat /\
  fst (Connect sampleEnv (snd (close {| ev_Type := DisconnectUser |} (liveWorld None))))
    = None.
Proof.
  split; [reflexivity|].
  apply (Connect_after_close sampleEnv (liveWorld None) 7%nat 7%nat
           {| ev_Type := DisconnectUser |}); reflexivity.
Defined.

(** ** Request *)

Lemma land_pow2_test (r n : Z) :
  0 <= n -> negb (Z.land r (2 ^ n) =? 0) = Z.testbit r n.
Proof.
  intros Hn. destruct (Z.testbit r n) eqn:E.
  - apply negb_true_iff, Z.eqb_neq. intros H.
    assert (Ht : Z.testbit (Z.land r (2 ^ n)) n = true).
    { rewrite Z.land_spec, E, Z.pow2_bits_true by lia. reflexivity. }
    rewrite H, Z.bits_0 in Ht. discriminate.
  - apply negb_false_iff, Z.eqb_eq. apply Z.bits_inj'. intros i Hi.
    rewrite Z.land_spec, Z.bits_0.
    destruct (Z.eq_dec n i) as [<-|Hne].
    + rewrite E. reflexivity.
    + rewrite Z.pow2_bits_false by lia. apply andb_false_r.
Qed.

Lemma Request_by_bits (r : Z) :
  Request r =
    ((if Z.testbit r 4 then Send (protoMessage PUserList);; ret tt else ret tt);;
     (if Z.testbit r 6 then Send (protoMessage (PBanList true));; ret tt else ret tt)).
Proof.
  unfold Request.
  change RequestUserList with (2 ^ 4). change RequestBanList with (2 ^ 6).
  rewrite !land_pow2_test by lia. reflexivity.
Qed.

(** X8.  [Request] looks at two bits of its argument only, bit 4 (UserList) and
    bit 6 (BanList): masking all other bits away changes nothing, a value
    with neither bit set (each of the five other Request constants, for
    one) leaves the world untouched, and when both are set the UserList
    request is sent before the BanList request. *)
Theorem Request_bits (r : Z) (w : World) :
  Request r w = Request (Z.land r (Z.lor RequestUserList RequestBanList)) w /\
  (Z.testbit r 4 = false -> Z.testbit r 6 = false -> Request r w = (tt, w)) /\
  Request (Z.lor (Z.lor (Z.lor RequestDescription RequestComment)
                    (Z.lor RequestTexture RequestStats)) RequestAcl) w = (tt, w) /\
  (Z.testbit r 4 = true -> Z.testbit r 6 = true ->
   Request r w =
     (tt, snd (Send (protoMessage (PBanList true))
                 (snd (Send (protoMessage PUserList) w))))).
Proof.
  split; [|split; [|split]].
  - rewrite !Request_by_bits.
    change (Z.lor RequestUserList RequestBanList) with 80.
    rewrite !Z.land_spec. change (Z.testbit 80 4) with true.
    change (Z.testbit 80 6) with true. rewrite !andb_true_r. reflexivity.
  - intros H4 H6. rewrite Request_by_bits, H4, H6. reflexivity.
  - reflexivity.
  - intros H4 H6. rewrite Request_by_bits, H4, H6.
    rewrite bind_skip, !Send_then. cbn [snd]. reflexivity.
Qed.

(** ** More on the read goroutine *)

Lemma closed_after_close (ev : DisconnectEvent) (w : World) :
  connection (client (snd (close ev w))) = None.
Proof.
  destruct (connection (client w)) as [k|] eqn:E.
  - rewrite (close_conn ev w k E). reflexivity.
  - rewrite (close_nil ev w E). exact E.
Qed.

(** X9.  However the read goroutine ends (end of stream, fault, oversize
    header) and whatever the handlers did, the client holds no connection
    afterwards; started on a client that holds a connection, the goroutine
    ends by returning, not by a panic. *)
Theorem readRoutine_ends_closed (handlers : gmap Z Handler) (input : list byte)
    (w : World) :
  connection (client (snd (readRoutine handlers input w))) = None /\
  (connection (client w) <> None ->
   fst (fst (readRoutine handlers input w)) = ExitReturn).
Proof.
  unfold readRoutine, deferredClose.
  destruct (connection (client w)) as [k|] eqn:E; cbn [fst snd].
  - split; [apply closed_after_close|]. intros _. apply runLoop_no_panic.
  - split; [apply closed_after_close|]. intros H. by destruct H.
Qed.

(** X10.  A stream that ends inside a header, or inside a payload, ends the
    loop without any handler being called: the world is as before and the
    bytes of the incomplete packet are gone. *)
Theorem runLoop_incomplete (handlers : gmap Z Handler) (conn : Conn)
    (input : list byte) (w : World) :
  isClosed conn w = false ->
  (length input < 6)%nat \/
  (exists tb lb part,
     input = tb ++ lb ++ part /\ length tb = 2%nat /\ length lb = 4%nat /\
     be_uint lb <= maximumPacketSize /\ Z.of_nat (length part) < be_uint lb) ->
  runLoop handlers conn input w = (ExitReturn, [], w).
Proof.
  intros Ho [Hshort|[tb [lb [part [-> [Ht [Hl [Hsmall Hpart]]]]]]]].
  - by apply runLoop_eof.
  - unfold runLoop. cbn [readLoop].
    rewrite (connRead_open conn 2 tb (lb ++ part) w Ho) by lia.
    rewrite (connRead_open conn 4 lb part w Ho) by lia.
    rewrite (to_int_small _ (header_length_range lb Hl)).
    destruct (Z.gtb_spec (be_uint lb) maximumPacketSize); [lia|].
    destruct (Z.ltb_spec (be_uint lb) 0); [lia|].
    unfold connRead.
    destruct (Z.ltb_spec (Z.of_nat (length part)) (be_uint lb)); [reflexivity|lia].
Qed.

Lemma runLoop_incomplete_witness :
  isClosed 7%nat (liveWorld None) = false /\
  runLoop sampleHandlers 7%nat [x00; x05; x00; x00; x00; x03; xaa]
    (liveWorld None) = (ExitReturn, [], liveWorld None).
Proof.
  split; [reflexivity|].
  apply (runLoop_incomplete sampleHandlers 7%nat _ (liveWorld None) eq_refl).
  right. exists [x00; x05], [x00; x00; x00; x03], [xaa].
  repeat split; vm_compute; congruence.
Defined.

Lemma dispatchAll_snoc (handlers : gmap Z Handler) (ps : list Packet) (p : Packet)
    (w : World) :
  dispatchAll handlers (ps ++ [p]) w =
    dispatch handlers (be_uint (pk_type p)) (pk_payload p) (dispatchAll handlers ps w).
Proof. unfold dispatchAll. rewrite fold_left_app. reflexivity. Qed.

(** X11.  A stream of well-framed packets is dispatched packet by packet, in
    arrival order, each to the handler of its type, as long as no handler
    closes the connection; the loop then goes on with what follows, and at
    the end of the stream it returns. *)
Theorem runLoop_stream (handlers : gmap Z Handler) (conn : Conn)
    (ps : list Packet) (rest : list byte) (w : World) :
  Forall wellFramed ps ->
  (forall n : nat, (n < length ps)%nat ->
     isClosed conn (dispatchAll handlers (take n ps) w) = false) ->
  runLoop handlers conn (concat (map packetBytes ps) ++ rest) w =
    runLoop handlers conn rest (dispatchAll handlers ps w) /\
  (isClosed conn (dispatchAll handlers ps w) = false ->
   runLoop handlers conn (concat (map packetBytes ps)) w =
     (ExitReturn, [], dispatchAll handlers ps w)).
Proof.
  intros Hwf Hopen.
  assert (Hmain : forall rest',
            runLoop handlers conn (concat (map packetBytes ps) ++ rest') w =
            runLoop handlers conn rest' (dispatchAll handlers ps w)).
  { revert w Hopen. induction Hwf as [|p ps Hp Hps IH]; intros w Hopen rest'.
    - reflexivity.
    - destruct Hp as [Ht [Hl [Hpay Hsmall]]].
      cbn [map concat]. unfold packetBytes at 1. rewrite <- !app_assoc.
      rewrite (runLoop_packet handlers conn (pk_type p) (pk_length p) (pk_payload p)
                 _ w (Hopen 0%nat ltac:(cbn; lia)) Ht Hl Hpay Hsmall).
      rewrite IH; [reflexivity|].
      intros n Hn. apply (Hopen (S n)). cbn. lia. }
  split; [apply Hmain|].
  intros Hend. rewrite <- (app_nil_r (concat _)), Hmain.
  apply runLoop_eof. cbn. lia.
Qed.

Lemma runLoop_stream_witness :
  Forall wellFramed
    [mkPacket [x00; x05] [x00; x00; x00; x01] [xaa];
     mkPacket [x00; x63] [x00; x00; x00; x00] []] /\
  runLoop sampleHandlers 7%nat
    [x00; x05; x00; x00; x00; x01; xaa; x00; x63; x00; x00; x00; x00]
    (liveWorld None) =
    (ExitReturn, [],
     snd (assign FState (set_state StateSynced) (liveWorld None))).
Proof.
  assert (Hwf : Forall wellFramed
            [mkPacket [x00; x05] [x00; x00; x00; x01] [xaa];
             mkPacket [x00; x63] [x00; x00; x00; x00] []]).
  { repeat constructor; vm_compute; congruence. }
  split; [exact Hwf|].
  apply (runLoop_stream sampleHandlers 7%nat _ [] (liveWorld None) Hwf).
  - intros [|[|n]] Hn; [reflexivity | reflexivity | cbn in Hn; lia].
  - reflexivity.
Defined.

Lemma runLoop_packets (handlers : gmap Z Handler) (conn : Conn) (ps : list Packet) :
  Forall wellFramed ps ->
  forall (rest : list byte) (w : World),
    runLoop handlers conn (concat (map packetBytes ps) ++ rest) w =
      runLoop handlers conn rest (dispatchAll handlers ps w).
Proof.
  induction 1 as [|p ps Hp Hps IH]; intros rest w; [reflexivity|].
  destruct Hp as [Ht [Hl [Hpay Hsmall]]].
  cbn [map concat]. unfold packetBytes at 1. rewrite <- !app_assoc.
  rewrite (runLoop_packet_turn handlers conn (pk_type p) (pk_length p) (pk_payload p)
             _ w Ht Hl Hpay Hsmall).
  apply IH.
Qed.

(** X12.  When a handler has closed the client, so that the client holds no
    connection once the packets that were still delivered have been
    dispatched, the read goroutine returns at the end of the stream and
    its own deferred [close] does nothing: it finds the nil connection and
    delivers no second Disconnect event.  The world is exactly as the
    handlers left it. *)
Theorem handler_close_no_second_event (handlers : gmap Z Handler) (conn : Conn)
    (ps : list Packet) (tail : list byte) (w : World) :
  connection (client w) = Some conn ->
  Forall wellFramed ps ->
  (length tail < 6)%nat ->
  connection (client (dispatchAll handlers ps w)) = None ->
  readRoutine handlers (concat (map packetBytes ps) ++ tail) w =
    ((ExitReturn, []), dispatchAll handlers ps w) /\
  disconnectEvents
    (trace (snd (readRoutine handlers (concat (map packetBytes ps) ++ tail) w))) =
    disconnectEvents (trace (dispatchAll handlers ps w)).
Proof.
  intros Hk Hwf Htail Hnil.
  assert (Hr : readRoutine handlers (concat (map packetBytes ps) ++ tail) w =
               ((ExitReturn, []), dispatchAll handlers ps w)).
  { unfold readRoutine. rewrite Hk.
    rewrite (runLoop_packets handlers conn ps Hwf tail w).
    rewrite (runLoop_eof handlers conn tail _ Htail).
    unfold deferredClose. cbn [fst snd].
    rewrite (close_nil _ _ Hnil). reflexivity. }
  rewrite Hr. split; reflexivity.
Qed.

Lemma handler_close_no_second_event_witness :
  connection (client (liveWorld (Some 3%nat))) = Some 7%nat /\
  Forall wellFramed [mkPacket [x00; x08] [x00; x00; x00; x00] []] /\
  disconnectEvents
    (trace (snd (readRoutine kickHandlers
                   [x00; x08; x00; x00; x00; x00; x00; x05]
                   (liveWorld (Some 3%nat))))) =
    [(3%nat, {| ev_Type := DisconnectKicked |})].
Proof.
  assert (Hwf : Forall wellFramed [mkPacket [x00; x08] [x00; x00; x00; x00] []]).
  { repeat constructor; vm_compute; congruence. }
  split; [reflexivity|]. split; [exact Hwf|].
  destruct (handler_close_no_second_event kickHandlers 7%nat
              [mkPacket [x00; x08] [x00; x00; x00; x00] []] [x00; x05]
              (liveWorld (Some 3%nat)) eq_refl Hwf) as [_ Hev].
  - cbn. lia.
  - reflexivity.
  - cbn [map concat packetBytes pk_type pk_length pk_payload app] in Hev.
    rewrite Hev. reflexivity.
Defined.

(** ** gumbleopenal: capture protocol *)

(** X13.  [StopSource] undoes [StartSource]: started on an idle stream with a
    capture device, the stream is capturing (a second [StartSource] is
    refused with [ErrState] and makes no call); [StopSource] then closes
    the stop channel and gives back the stream as it was.  [StopSource] on
    the idle stream is refused with [ErrState], yet has called
    [CaptureStop]. *)
Theorem StartSource_StopSource (s : gumbleopenal.Stream)
    (d : gumbleopenal.CaptureDevice) (fresh fresh' : Chan) (dev dev' : string) :
  gumbleopenal.deviceSource s = Some d ->
  gumbleopenal.sourceStop s = None ->
  exists s1 : gumbleopenal.Stream,
    gumbleopenal.StartSource fresh dev s =
      (None, s1, [gumbleopenal.CaptureStart d; gumbleopenal.GoSourceRoutine dev]) /\
    gumbleopenal.sourceStop s1 = Some fresh /\
    gumbleopenal.StartSource fresh' dev' s1 = (Some gumbleopenal.ErrState, s1, []) /\
    gumbleopenal.StopSource s1 =
      (None, s, [gumbleopenal.CaptureStop d; gumbleopenal.CloseChan fresh]) /\
    gumbleopenal.StopSource s =
      (Some gumbleopenal.ErrState, s, [gumbleopenal.CaptureStop d]).
Proof.
  intros Hd Hs. exists (gumbleopenal.set_sourceStop (Some fresh) s).
  unfold gumbleopenal.StartSource, gumbleopenal.StopSource.
  cbn [gumbleopenal.sourceStop gumbleopenal.deviceSource gumbleopenal.set_sourceStop].
  rewrite Hd, Hs. repeat split.
  destruct s. cbn in *. subst. reflexivity.
Qed.

Lemma StartSource_StopSource_witness :
  gumbleopenal.deviceSource sampleStream = Some 2%nat /\
  gumbleopenal.sourceStop sampleStream = None /\
  exists s1 : gumbleopenal.Stream,
    gumbleopenal.StartSource 9%nat "mic" sampleStream =
      (None, s1, [gumbleopenal.CaptureStart 2%nat; gumbleopenal.GoSourceRoutine "mic"]) /\
    gumbleopenal.StopSource s1 =
      (None, sampleStream,
       [gumbleopenal.CaptureStop 2%nat; gumbleopenal.CloseChan 9%nat]).
Proof.
  split; [reflexivity|]. split; [reflexivity|].
  destruct (StartSource_StopSource sampleStream 2%nat 9%nat 9%nat "mic" "mic"
              eq_refl eq_refl) as [s1 [H1 [_ [_ [H2 _]]]]].
  exists s1. split; assumption.
Defined.

(** X14.  [Destroy] detaches the link first and leaves the stream without
    capture device, sink and context; a capture that was running is
    stopped on the way (CaptureStop, stop channel closed, then the device
    closed, in that order).  Afterwards [StopSource] fails with [ErrMic]
    without any call, and a second [Destroy] does nothing but detach
    again. *)
Theorem Destroy_spec (s : gumbleopenal.Stream) :
  gumbleopenal.deviceSource (fst (gumbleopenal.Destroy s)) = None /\
  gumbleopenal.deviceSink (fst (gumbleopenal.Destroy s)) = None /\
  (gumbleopenal.deviceSink s <> None ->
   gumbleopenal.contextSink (fst (gumbleopenal.Destroy s)) = None) /\
  (gumbleopenal.deviceSource s <> None ->
   gumbleopenal.sourceStop (fst (gumbleopenal.Destroy s)) = None) /\
  (exists rest,
     snd (gumbleopenal.Destroy s) =
       gumbleopenal.Detach (gumbleopenal.link s) :: rest) /\
  (forall d ch,
     gumbleopenal.deviceSource s = Some d ->
     gumbleopenal.sourceStop s = Some ch ->
     exists rest,
       snd (gumbleopenal.Destroy s) =
         [gumbleopenal.Detach (gumbleopenal.link s); gumbleopenal.CaptureStop d;
          gumbleopenal.CloseChan ch; gumbleopenal.CaptureCloseDevice d] ++ rest) /\
  gumbleopenal.StopSource (fst (gumbleopenal.Destroy s)) =
    (Some gumbleopenal.ErrMic, fst (gumbleopenal.Destroy s), []) /\
  gumbleopenal.Destroy (fst (gumbleopenal.Destroy s)) =
    (fst (gumbleopenal.Destroy s), [gumbleopenal.Detach (gumbleopenal.link s)]).
Proof.
  destruct s as [l src fs stop sink ctx].
  unfold gumbleopenal.Destroy, gumbleopenal.StopSource.
  destruct src as [d|], stop as [ch|], sink as [k|]; cbn;
    repeat split; try congruence; try (intros; discriminate);
    try (eexists; reflexivity);
    try (intros ? ? [= <-] [= <-]; eexists; reflexivity).
Qed.

(** ** gumbleopenal: samples and bytes *)

Lemma to_byte_N (v : Z) :
  Z.of_N (Byte.to_N (gumbleopenal.to_byte v)) = v mod 256.
Proof.
  unfold gumbleopenal.to_byte.
  pose proof (Z.mod_pos_bound v 256 ltac:(lia)) as Hb.
  destruct (Byte.of_N (Z.to_N (v mod 256))) as [b|] eqn:E.
  - apply Byte.to_of_N in E. simpl. rewrite E. lia.
  - apply Byte.of_N_None_iff in E. lia.
Qed.

Lemma lor_shiftl_8 (a b : Z) :
  0 <= a < 256 -> 0 <= b -> Z.lor a (Z.shiftl b 8) = a + 256 * b.
Proof.
  intros Ha Hb. rewrite Z.shiftl_mul_pow2 by lia.
  assert (Hland : Z.land a (b * 2 ^ 8) = 0).
  { apply Z.bits_inj'. intros i Hi. rewrite Z.land_spec, Z.bits_0.
    destruct (Z.lt_ge_cases i 8) as [Hlt|Hge].
    - rewrite Z.mul_pow2_bits_low by lia. apply andb_false_r.
    - destruct (Z.eq_dec a 0) as [->|Hne]; [rewrite Z.bits_0; reflexivity|].
      rewrite (Z.bits_above_log2 a i); [reflexivity | lia |].
      apply Z.log2_lt_pow2; [lia|]. change (2 ^ i) with (2 ^ i).
      apply Z.lt_le_trans with (2 ^ 8); [cbn; lia|].
      apply Z.pow_le_mono_r; lia. }
  rewrite <- Z.lxor_lor by exact Hland.
  rewrite <- Z.add_nocarry_lxor by exact Hland. change (2 ^ 8) with 256. lia.
Qed.

Lemma sample_roundtrip (v : Z) :
  gumbleopenal.isInt16 v ->
  gumbleopenal.Uint16
    [gumbleopenal.to_byte (gumbleopenal.to_uint16 v);
     gumbleopenal.to_byte (Z.shiftr (gumbleopenal.to_uint16 v) 8)] =
    Some (gumbleopenal.to_uint16 v) /\
  gumbleopenal.to_int16 (gumbleopenal.to_uint16 v) = v.
Proof.
  unfold gumbleopenal.isInt16. intros Hv.
  unfold gumbleopenal.Uint16, gumbleopenal.to_uint16, gumbleopenal.to_int16.
  change (2 ^ 16) with 65536 in *. change (2 ^ 15) with 32768 in *.
  pose proof (Z.mod_pos_bound v 65536 ltac:(lia)) as Hu.
  set (u := v mod 65536) in *.
  split.
  - rewrite !to_byte_N. rewrite Z.shiftr_div_pow2 by lia. change (2 ^ 8) with 256.
    assert (Hq : 0 <= u / 256 < 256).
    { split; [apply Z.div_pos; lia | apply Z.div_lt_upper_bound; lia]. }
    rewrite (Z.mod_small (u / 256)) by exact Hq.
    rewrite lor_shiftl_8; [|apply Z.mod_pos_bound; lia | lia].
    f_equal. pose proof (Z.div_mod u 256 ltac:(lia)). lia.
  - rewrite (Z.mod_small u 65536) by lia.
    assert (Hcases : (0 <= v /\ u = v) \/ (v < 0 /\ u = v + 65536)).
    { subst u. destruct (Z.lt_ge_cases v 0).
      - right. split; [lia|]. symmetry. apply (Z.mod_unique v 65536 (-1)); lia.
      - left. split; [lia|]. apply Z.mod_small. lia. }
    destruct (Z.ltb_spec u 32768); lia.
Qed.

Lemma PutUint16_mid (pre post : list byte) (a b : byte) (v : Z) :
  gumbleopenal.PutUint16 (pre ++ a :: b :: post) (length pre) v =
    Returned (pre ++ gumbleopenal.to_byte v :: gumbleopenal.to_byte (Z.shiftr v 8) :: post).
Proof.
  unfold gumbleopenal.PutUint16.
  rewrite length_app. cbn [length].
  destruct (Nat.ltb_spec (length pre + 1) (length pre + S (S (length post)))); [|lia].
  f_equal.
  replace (length pre) with (length pre + 0)%nat at 2 by lia.
  rewrite insert_app_r. cbn.
  replace (S (length pre)) with (length pre + 1)%nat by lia.
  rewrite insert_app_r. reflexivity.
Qed.

Lemma fillRaw_mid (buf : list Z) :
  forall (pre mid post : list byte) (i : nat),
    length pre = (i * 2)%nat ->
    length mid = (length buf * 2)%nat ->
    gumbleopenal.fillRaw (pre ++ mid ++ post) i buf =
      Returned (pre ++ gumbleopenal.sampleBytes buf ++ post).
Proof.
  induction buf as [|v buf IH]; intros pre mid post i Hpre Hmid.
  - destruct mid; [reflexivity | discriminate].
  - destruct mid as [|a [|b mid]]; try discriminate.
    cbn [gumbleopenal.fillRaw]. rewrite <- Hpre.
    cbn [app]. rewrite PutUint16_mid.
    change (pre ++ ?x :: ?y :: mid ++ post) with (pre ++ [x; y] ++ mid ++ post).
    rewrite (app_assoc pre).
    rewrite (IH _ mid post (S i)).
    + rewrite <- app_assoc. reflexivity.
    + rewrite length_app. cbn. lia.
    + cbn in Hmid. lia.
Qed.

Lemma sampleBytes_length (buf : list Z) :
  length (gumbleopenal.sampleBytes buf) = (length buf * 2)%nat.
Proof.
  unfold gumbleopenal.sampleBytes.
  induction buf as [|v buf IH]; [reflexivity|].
  cbn [flat_map]. rewrite length_app, IH. cbn. lia.
Qed.

Lemma frameOfCapture_sampleBytes (buf : list Z) :
  Forall gumbleopenal.isInt16 buf ->
  gumbleopenal.frameOfCapture (Z.of_nat (length buf)) (gumbleopenal.sampleBytes buf) =
    Some buf.
Proof.
  intros Hbuf. unfold gumbleopenal.frameOfCapture.
  rewrite sampleBytes_length.
  destruct (Z.eqb_spec (Z.of_nat (length buf * 2)) (Z.of_nat (length buf) * 2))
    as [Heq|]; [clear Heq|lia].
  cbn [negb]. f_equal. rewrite Nat2Z.id.
  induction Hbuf as [|v buf Hv Hbuf IH]; [reflexivity|].
  cbn [length seq map]. f_equal.
  - cbn [Nat.mul drop gumbleopenal.sampleBytes flat_map app take].
    destruct (sample_roundtrip v Hv) as [Hu Hi].
    cbn [gumbleopenal.Uint16] in *. injection Hu as ->. cbn [default]. exact Hi.
  - rewrite <- seq_shift, map_map. rewrite <- IH at 2.
    apply map_ext. intros i. reflexivity.
Qed.

Lemma PutUint16_length (raw raw' : list byte) (off : nat) (v : Z) :
  gumbleopenal.PutUint16 raw off v = Returned raw' -> length raw' = length raw.
Proof.
  unfold gumbleopenal.PutUint16.
  destruct (off + 1 <? length raw)%nat; [|discriminate].
  intros [= <-]. rewrite !length_insert. reflexivity.
Qed.

Lemma fillRaw_overflow (buf : list Z) :
  forall (raw : list byte) (i : nat),
    buf <> [] ->
    (length raw < i * 2 + length buf * 2)%nat ->
    gumbleopenal.fillRaw raw i buf = Panicked.
Proof.
  induction buf as [|v buf IH]; intros raw i Hne Hover; [congruence|].
  cbn [gumbleopenal.fillRaw].
  destruct (gumbleopenal.PutUint16 raw (i * 2) (gumbleopenal.to_uint16 v))
    as [raw'|] eqn:E; [|reflexivity].
  pose proof (PutUint16_length _ _ _ _ E) as Hlen.
  unfold gumbleopenal.PutUint16 in E.
  destruct (Nat.ltb_spec (i * 2 + 1) (length raw)); [|discriminate].
  apply IH.
  - destruct buf; [cbn in Hover; lia | discriminate].
  - cbn [length] in Hover. lia.
Qed.

Lemma fillRaw_fit (raw : list byte) (audioBuffer : list Z) :
  (length audioBuffer * 2 <= length raw)%nat ->
  gumbleopenal.fillRaw raw 0 audioBuffer =
    Returned (gumbleopenal.sampleBytes audioBuffer ++
              drop (length audioBuffer * 2) raw).
Proof.
  intros Hfit.
  pose proof (fillRaw_mid audioBuffer [] (take (length audioBuffer * 2) raw)
                (drop (length audioBuffer * 2) raw) 0%nat eq_refl) as Hf.
  cbn [app] in Hf. rewrite take_drop in Hf.
  apply Hf. rewrite length_take. lia.
Qed.

Lemma fillRaw_returned (audioBuffer : list Z) :
  forall (raw raw' : list byte) (i : nat),
    gumbleopenal.fillRaw raw i audioBuffer = Returned raw' ->
    length raw' = length raw /\
    (audioBuffer = [] \/ (i * 2 + length audioBuffer * 2 <= length raw)%nat).
Proof.
  induction audioBuffer as [|v buf IH]; intros raw raw' i H.
  - cbn in H. injection H as <-. split; [reflexivity | by left].
  - destruct (Nat.le_gt_cases (i * 2 + length (v :: buf) * 2) (length raw))
      as [Hle|Hgt].
    + split; [|by right].
      cbn [gumbleopenal.fillRaw] in H.
      destruct (gumbleopenal.PutUint16 raw (i * 2) (gumbleopenal.to_uint16 v))
        as [raw1|] eqn:E; [|discriminate].
      destruct (IH raw1 raw' (S i) H) as [Hlen _].
      rewrite Hlen. exact (PutUint16_length _ _ _ _ E).
    + rewrite fillRaw_overflow in H; [discriminate | discriminate | exact Hgt].
Qed.

Lemma reclaim_bufs (env : gumbleopenal.SourceEnv) (emptyBufs : list gumbleopenal.Buffer) :
  gumbleopenal.reclaim env emptyBufs =
    (emptyBufs ++ gumbleopenal.unqueued env,
     snd (gumbleopenal.reclaim env emptyBufs)).
Proof.
  unfold gumbleopenal.reclaim.
  destruct (gumbleopenal.unqueued env); cbn; [rewrite app_nil_r|]; reflexivity.
Qed.

(** The whole turn is the conversion part followed by the buffer handling. *)
Lemma onPacket_conversion (env : gumbleopenal.SourceEnv) (raw : list byte)
    (emptyBufs : list gumbleopenal.Buffer) (audioBuffer : list Z) :
  gumbleopenal.onPacket env raw emptyBufs audioBuffer =
    match gumbleopenal.packetData raw audioBuffer with
    | Panicked => Panicked
    | Returned None => Returned (gumbleopenal.Skipped, raw, emptyBufs, [])
    | Returned (Some (raw', data)) =>
        let '(emptyBufs1, calls1) := gumbleopenal.reclaim env emptyBufs in
        if (length emptyBufs1 =? 0)%nat
        then Returned (gumbleopenal.Dropped, raw', emptyBufs1, calls1)
        else
          match emptyBufs1 !! (length emptyBufs1 - 1)%nat with
          | None => Panicked
          | Some buffer =>
              Returned
                (gumbleopenal.Queued, raw', take (length emptyBufs1 - 1) emptyBufs1,
                 calls1 ++
                 [gumbleopenal.SetData buffer data; gumbleopenal.QueueBuffer buffer] ++
                 (if gumbleopenal.playing env then [] else [gumbleopenal.Play]))
          end
    end.
Proof.
  unfold gumbleopenal.onPacket, gumbleopenal.packetData.
  destruct (length raw <? length audioBuffer)%nat; [reflexivity|].
  destruct (gumbleopenal.fillRaw raw 0 audioBuffer) as [raw'|] eqn:E; [|reflexivity].
  destruct (fillRaw_returned audioBuffer raw raw' 0%nat E) as [Hlen Hfit].
  assert (Hok : (length raw' <? length audioBuffer * 2)%nat = false).
  { apply Nat.ltb_ge. destruct Hfit as [->|Hfit]; cbn; lia. }
  rewrite Hok. reflexivity.
Qed.

(** X15.  The bytes [OnAudioStream] hands to the playback buffer and the
    samples [sourceRoutine] reads from a capture are inverse encodings.
    For a packet of int16 samples that fits the array (two bytes each),
    the conversion loop overwrites exactly the first bytes of the array,
    two per sample; then, once the processed buffers have been reclaimed,
    the packet is dropped if no buffer is free (nothing is set or queued);
    otherwise the last free buffer is taken, [SetData] receives exactly
    the converted bytes, the buffer is queued and [Play] is called only if
    the source is not playing.  Reading the bytes given to [SetData] back
    as a capture of that frame size gives the samples again. *)
Theorem samples_roundtrip (env : gumbleopenal.SourceEnv) (raw : list byte)
    (emptyBufs : list gumbleopenal.Buffer) (audioBuffer : list Z) :
  Forall gumbleopenal.isInt16 audioBuffer ->
  (length audioBuffer * 2 <= length raw)%nat ->
  (emptyBufs ++ gumbleopenal.unqueued env = [] ->
   gumbleopenal.onPacket env raw emptyBufs audioBuffer =
     Returned (gumbleopenal.Dropped,
               gumbleopenal.sampleBytes audioBuffer ++
               drop (length audioBuffer * 2) raw,
               [], [])) /\
  (forall (free : list gumbleopenal.Buffer) (buffer : gumbleopenal.Buffer),
     emptyBufs ++ gumbleopenal.unqueued env = free ++ [buffer] ->
     exists data : list byte,
       gumbleopenal.onPacket env raw emptyBufs audioBuffer =
         Returned (gumbleopenal.Queued,
                   data ++ drop (length audioBuffer * 2) raw,
                   free,
                   snd (gumbleopenal.reclaim env emptyBufs) ++
                   [gumbleopenal.SetData buffer data; gumbleopenal.QueueBuffer buffer] ++
                   (if gumbleopenal.playing env then [] else [gumbleopenal.Play])) /\
       length data = (length audioBuffer * 2)%nat /\
       gumbleopenal.frameOfCapture (Z.of_nat (length audioBuffer)) data =
         Some audioBuffer).
Proof.
  intros Hbuf Hfit.
  assert (Hstart : gumbleopenal.onPacket env raw emptyBufs audioBuffer =
            let raw' := gumbleopenal.sampleBytes audioBuffer ++
                        drop (length audioBuffer * 2) raw in
            let emptyBufs1 := emptyBufs ++ gumbleopenal.unqueued env in
            let calls1 := snd (gumbleopenal.reclaim env emptyBufs) in
            if (length emptyBufs1 =? 0)%nat
            then Returned (gumbleopenal.Dropped, raw', emptyBufs1, calls1)
            else
              match emptyBufs1 !! (length emptyBufs1 - 1)%nat with
              | None => Panicked
              | Some buffer =>
                  if (length raw' <? length audioBuffer * 2)%nat then Panicked
                  else
                    Returned
                      (gumbleopenal.Queued, raw',
                       take (length emptyBufs1 - 1) emptyBufs1,
                       calls1 ++
                       [gumbleopenal.SetData buffer (take (length audioBuffer * 2) raw');
                        gumbleopenal.QueueBuffer buffer] ++
                       (if gumbleopenal.playing env then [] else [gumbleopenal.Play]))
              end).
  { unfold gumbleopenal.onPacket.
    destruct (Nat.ltb_spec (length raw) (length audioBuffer)); [lia|].
    rewrite (fillRaw_fit raw audioBuffer Hfit), reclaim_bufs. reflexivity. }
  rewrite Hstart. cbv zeta. split.
  - intros Hnone. rewrite Hnone. cbn [length Nat.eqb].
    apply app_eq_nil in Hnone as [-> Hu].
    unfold gumbleopenal.reclaim. rewrite Hu. reflexivity.
  - intros free buffer Hsome. rewrite Hsome.
    exists (gumbleopenal.sampleBytes audioBuffer).
    split; [|split; [apply sampleBytes_length | by apply frameOfCapture_sampleBytes]].
    rewrite length_app. cbn [length].
    replace (length free + 1 - 1)%nat with (length free) by lia.
    destruct (Nat.eqb_spec (length free + 1) 0); [lia|].
    rewrite list_lookup_middle by reflexivity.
    rewrite length_app, sampleBytes_length.
    destruct (Nat.ltb_spec
                (length audioBuffer * 2 +
                 length (drop (length audioBuffer * 2) raw))
                (length audioBuffer * 2)); [lia|].
    rewrite take_app_length.
    rewrite take_app_length' by (symmetry; apply sampleBytes_length).
    reflexivity.
Qed.

Lemma samples_roundtrip_witness :
  Forall gumbleopenal.isInt16 [-2; 258] /\
  gumbleopenal.onPacket (gumbleopenal.mkSourceEnv [] false)
    [x00; x00; x00; x00; xff; xff] [] [-2; 258] =
    Returned (gumbleopenal.Dropped, [xfe; xff; x02; x01; xff; xff], [], []) /\
  exists data : list byte,
    gumbleopenal.onPacket (gumbleopenal.mkSourceEnv [4%nat] true)
      [x00; x00; x00; x00; xff; xff] [5%nat; 6%nat] [-2; 258] =
      Returned (gumbleopenal.Queued, data ++ [xff; xff], [5%nat; 6%nat],
                [gumbleopenal.UnqueueBuffers [4%nat];
                 gumbleopenal.SetData 4%nat data; gumbleopenal.QueueBuffer 4%nat]) /\
    gumbleopenal.frameOfCapture 2 data = Some [-2; 258].
Proof.
  assert (H : Forall gumbleopenal.isInt16 [-2; 258]).
  { repeat constructor; vm_compute; congruence. }
  split; [exact H|]. split.
  - apply (samples_roundtrip (gumbleopenal.mkSourceEnv [] false)
             [x00; x00; x00; x00; xff; xff] [] [-2; 258] H ltac:(cbn; lia)).
    reflexivity.
  - destruct (samples_roundtrip (gumbleopenal.mkSourceEnv [4%nat] true)
                [x00; x00; x00; x00; xff; xff] [5%nat; 6%nat] [-2; 258] H
                ltac:(cbn; lia)) as [_ Hq].
    destruct (Hq [5%nat; 6%nat] 4%nat eq_refl) as [data [Hr [_ Hd]]].
    exists data. split; [exact Hr | exact Hd].
Defined.

(** X16.  A packet whose samples do not fit the byte array (two bytes each)
    never reaches the playback buffer: [OnAudioStream] skips it when the
    sample count exceeds [cap(raw)], and otherwise (more than half of
    [cap(raw)] samples) the conversion loop runs off the end of the array
    and panics. *)
Theorem packetData_overflow (raw : list byte) (audioBuffer : list Z) :
  (length raw < length audioBuffer * 2)%nat ->
  gumbleopenal.packetData raw audioBuffer =
    if (length raw <? length audioBuffer)%nat then Returned None else Panicked.
Proof.
  intros Hover. unfold gumbleopenal.packetData.
  destruct (length raw <? length audioBuffer)%nat; [reflexivity|].
  rewrite fillRaw_overflow; [reflexivity | | cbn; lia].
  intros ->. cbn in Hover. lia.
Qed.

Lemma packetData_overflow_witness :
  (length [x00; x00; x00; x00] < length [1; 2; 3] * 2)%nat /\
  gumbleopenal.packetData [x00; x00; x00; x00] [1; 2; 3] = Panicked /\
  gumbleopenal.packetData [x00; x00; x00; x00] [1; 2; 3; 4; 5] = Returned None.
Proof.
  split; [cbn; lia|]. split.
  - apply (packetData_overflow [x00; x00; x00; x00] [1; 2; 3]). cbn. lia.
  - apply (packetData_overflow [x00; x00; x00; x00] [1; 2; 3; 4; 5]). cbn. lia.
Defined.

Lemma to_N_inj (a b : byte) : Byte.to_N a = Byte.to_N b -> a = b.
Proof.
  intros H. apply (f_equal Byte.of_N) in H. rewrite !Byte.of_to_N in H.
  congruence.
Qed.

Lemma bytes_roundtrip (a b : byte) :
  exists x : Z,
    gumbleopenal.Uint16 [a; b] = Some x /\
    gumbleopenal.isInt16 (gumbleopenal.to_int16 x) /\
    gumbleopenal.to_byte (gumbleopenal.to_uint16 (gumbleopenal.to_int16 x)) = a /\
    gumbleopenal.to_byte
      (Z.shiftr (gumbleopenal.to_uint16 (gumbleopenal.to_int16 x)) 8) = b.
Proof.
  pose proof (Byte.to_N_bounded a) as Ha. pose proof (Byte.to_N_bounded b) as Hb.
  set (za := Z.of_N (Byte.to_N a)). set (zb := Z.of_N (Byte.to_N b)).
  assert (Hza : 0 <= za < 256) by (subst za; lia).
  assert (Hzb : 0 <= zb < 256) by (subst zb; lia).
  exists (za + 256 * zb).
  assert (Hu : gumbleopenal.to_uint16 (gumbleopenal.to_int16 (za + 256 * zb)) =
               za + 256 * zb).
  { unfold gumbleopenal.to_uint16, gumbleopenal.to_int16.
    change (2 ^ 16) with 65536. change (2 ^ 15) with 32768.
    rewrite (Z.mod_small (za + 256 * zb)) by lia.
    destruct (Z.ltb_spec (za + 256 * zb) 32768).
    - apply Z.mod_small. lia.
    - symmetry. apply (Z.mod_unique _ 65536 (-1)); lia. }
  split; [|split; [|split]].
  - unfold gumbleopenal.Uint16. fold za zb. rewrite lor_shiftl_8 by lia. reflexivity.
  - unfold gumbleopenal.isInt16, gumbleopenal.to_int16.
    change (2 ^ 16) with 65536. change (2 ^ 15) with 32768.
    rewrite (Z.mod_small (za + 256 * zb)) by lia.
    destruct (Z.ltb_spec (za + 256 * zb) 32768); lia.
  - rewrite Hu. apply to_N_inj. apply N2Z.inj. rewrite to_byte_N. fold za.
    replace (za + 256 * zb) with (za + zb * 256) by lia.
    rewrite Z.mod_add by lia. apply Z.mod_small. lia.
  - rewrite Hu. apply to_N_inj. apply N2Z.inj. rewrite to_byte_N. fold zb.
    rewrite Z.shiftr_div_pow2 by lia. change (2 ^ 8) with 256.
    replace (za + 256 * zb) with (zb * 256 + za) by lia.
    rewrite Z.div_add_l by lia.
    rewrite (Z.div_small za) by lia. rewrite Z.add_0_r. apply Z.mod_small. lia.
Qed.

(** X17.  A capture of [frameSize*2] bytes becomes [frameSize] samples, each
    an int16, and encoding those samples the way [OnAudioStream] does gives
    the captured bytes back; a capture of any other length is skipped. *)
Theorem capture_roundtrip (frameSize : Z) (buff : list byte) :
  (Z.of_nat (length buff) <> frameSize * 2 ->
   gumbleopenal.frameOfCapture frameSize buff = None) /\
  (Z.of_nat (length buff) = frameSize * 2 ->
   exists frame : list Z,
     gumbleopenal.frameOfCapture frameSize buff = Some frame /\
     Z.of_nat (length frame) = frameSize /\
     Forall gumbleopenal.isInt16 frame /\
     gumbleopenal.sampleBytes frame = buff).
Proof.
  unfold gumbleopenal.frameOfCapture. split.
  - intros Hne. destruct (Z.eqb_spec (Z.of_nat (length buff)) (frameSize * 2));
      [contradiction | reflexivity].
  - intros Heq. destruct (Z.eqb_spec (Z.of_nat (length buff)) (frameSize * 2));
      [|contradiction].
    cbn [negb]. eexists. split; [reflexivity|].
    assert (Hn : length buff = (Z.to_nat frameSize * 2)%nat) by lia.
    assert (Hfs : Z.of_nat (Z.to_nat frameSize) = frameSize) by lia.
    rewrite length_map, length_seq. split; [exact Hfs|].
    clear Heq e Hfs. revert buff Hn.
    induction (Z.to_nat frameSize) as [|n IH]; intros buff Hn.
    + destruct buff; [|discriminate]. split; [constructor | reflexivity].
    + destruct buff as [|a [|b buff]]; try discriminate.
      cbn [seq map]. rewrite <- seq_shift, map_map.
      destruct (IH buff ltac:(cbn in Hn; lia)) as [Hall Hbytes].
      destruct (bytes_roundtrip a b) as [x [Hx [Hi [Hlo Hhi]]]].
      change (take 2 (drop (0 * 2) (a :: b :: buff))) with [a; b].
      rewrite Hx. simpl default.
      split.
      * constructor; [exact Hi|]. exact Hall.
      * cbn [gumbleopenal.sampleBytes flat_map app]. rewrite Hlo, Hhi.
        f_equal. f_equal. exact Hbytes.
Qed.

(** X18.  No call other than [Connect] and [close] starts or ends a session or
    reaches the listener: [Send], [Request], [SetVoiceTarget] and the four
    channel requests only append frame writes and the audioTarget
    assignment to the trace, leave the channel objects and the closed
    connections alone, and change no client field but audioTarget. *)
Theorem requests_are_benign (w : World) (o : Op) :
  (forall env, o <> OpConnect env) ->
  (forall t, o <> OpClose t) ->
  exists d : list Action,
    trace (step w o) = trace w ++ d /\
    forallb benign d = true /\
    disconnectEvents d = [] /\
    channelObjs (step w o) = channelObjs w /\
    closedConns (step w o) = closedConns w /\
    set_audioTarget (audioTarget (client w)) (client (step w o)) = client w.
Proof.
  intros Hc Hd.
  destruct (benign_step w o Hc Hd) as [d [Ht [Hb [Hh [Hcl Hcli]]]]].
  exists d. destruct (benign_counts d Hb) as [_ [_ He]].
  repeat split; assumption.
Qed.

Lemma requests_are_benign_witness :
  exists d : list Action,
    trace (step (liveWorld None) (OpRequest (Z.lor RequestUserList RequestBanList))) =
      trace (liveWorld None) ++ d /\
    forallb benign d = true.
Proof.
  destruct (requests_are_benign (liveWorld None)
              (OpRequest (Z.lor RequestUserList RequestBanList)))
    as [d [Ht [Hb _]]].
  - intros env. discriminate.
  - intros t. discriminate.
  - exists d. split; assumption.
Defined.
